(** * WebSocket Tester: the session controller and the log model of App.js

    A shallow embedding of the event handlers of the [App] component
    (src/websocket_tester_frontend/src/App.js and its later revision with the
    saved-connections panel) together with the properties the design document
    states about them.

    Conventions of the embedding.
    - A JavaScript string is a [string]; every [ascii] stands for the UTF-16
      code unit of the same value, so the strings covered are those over the
      code units 0..255.
    - A thrown value is represented by its [message].
    - The browser (WebSocket, crypto, Date, JSON) is not part of the program:
      it is an interface ([Host], [JsonApi]) the handlers are written against,
      and a reference instance is given for running them.
    - A handler runs to completion against the component state; the state
      setters it calls are applied in call order (React's update queue), which
      is what a state monad does. No handler reads a state variable after
      setting it, so reading the store is reading the rendered value. *)

From Stdlib Require Import String Ascii List Bool Arith ZArith Lia.
From Stdlib Require Import DecimalNat DecimalString.
Import ListNotations.

Set Implicit Arguments.
Open Scope string_scope.

(** ** Strings as the handlers use them *)

Module Js.

(** ECMAScript WhiteSpace and LineTerminator code units below 256:
    TAB, LF, VT, FF, CR, SP and NBSP. *)
Definition isWhiteSpace (c : ascii) : bool :=
  let n := nat_of_ascii c in
  ((9 <=? n)%nat && (n <=? 13)%nat) || (n =? 32)%nat || (n =? 160)%nat.

(** [String.prototype.trimStart]. *)
Fixpoint trimStart (s : string) : string :=
  match s with
  | EmptyString => EmptyString
  | String c s' => if isWhiteSpace c then trimStart s' else s
  end.

(** [String.prototype.trimEnd]. *)
Fixpoint trimEnd (s : string) : string :=
  match s with
  | EmptyString => EmptyString
  | String c s' =>
      match trimEnd s' with
      | EmptyString => if isWhiteSpace c then EmptyString else String c EmptyString
      | t => String c t
      end
  end.

(** [String.prototype.trim]. *)
Definition trim (s : string) : string := trimEnd (trimStart s).

(** [String.prototype.startsWith]: [startsWith s p] is [s.startsWith(p)]. *)
Definition startsWith (s p : string) : bool := String.prefix p s.

(** ToBoolean on a string: only the empty string is falsy. *)
Definition truthy (s : string) : bool :=
  match s with
  | EmptyString => false
  | String _ _ => true
  end.

(** [a || b] on strings. *)
Definition or_else (a b : string) : string := if truthy a then a else b.

(** ToString on a non-negative integer, as a template literal applies it. *)
Definition numberToString (n : nat) : string :=
  NilEmpty.string_of_uint (Nat.to_uint n).

(** Every code unit of the string is white space. *)
Fixpoint allWhiteSpace (s : string) : bool :=
  match s with
  | EmptyString => true
  | String c s' => isWhiteSpace c && allWhiteSpace s'
  end.

(** First and last code unit. *)
Definition first (s : string) : option ascii :=
  match s with
  | EmptyString => None
  | String c _ => Some c
  end.

Fixpoint last (s : string) : option ascii :=
  match s with
  | EmptyString => None
  | String c EmptyString => Some c
  | String _ s' => last s'
  end.

(** No white space at either end. *)
Definition isTrimmed (s : string) : bool :=
  match first s, last s with
  | Some a, Some b => negb (isWhiteSpace a) && negb (isWhiteSpace b)
  | _, _ => true
  end.

End Js.

(** ** The URL normalisation of [connect] *)

(** [protocolHint]: the memoised [isSecure ? 'wss://' : 'ws://']. *)
Definition protocolHint (isSecure : bool) : string :=
  if isSecure then "wss://" else "ws://".

(** [normalizeUrl], with the [isSecure] its closure reads made an argument. *)
Definition normalizeUrl (isSecure : bool) (u : string) : string :=
  if negb (Js.truthy u) then EmptyString
  else
    let trimmed := Js.trim u in
    if Js.startsWith trimmed "ws://" || Js.startsWith trimmed "wss://"
    then trimmed
    else protocolHint isSecure ++ trimmed.

(** The input already carries one of the two protocols. *)
Definition hasWsPrefix (u : string) : bool :=
  Js.startsWith u "ws://" || Js.startsWith u "wss://".

(** ** The data model *)

(** [status]: 'disconnected' | 'connecting' | 'connected'. *)
Inductive Status : Type := Disconnected | Connecting | Connected.

Definition Status_eqb (a b : Status) : bool :=
  match a, b with
  | Disconnected, Disconnected | Connecting, Connecting | Connected, Connected => true
  | _, _ => false
  end.

(** [DIRECTION]: 'sent' | 'received' | 'system'. *)
Inductive Direction : Type := SENT | RECEIVED | SYSTEM.

(** A log entry, [{ id, time, type, text }]. *)
Record LogEntry : Type := mkLogEntry {
  entry_id : string;
  entry_time : string;
  entry_type : Direction;
  entry_text : string
}.

(** A saved connection, [{ id, label, url, secure }]. *)
Record SavedUrl : Type := mkSavedUrl {
  saved_id : string;
  saved_label : string;
  saved_url : string;
  saved_secure : bool
}.

(** What evaluating an expression that may throw gives: a value, or the
    message of the thrown error. *)
Inductive Completion (A : Type) : Type :=
| Normal (a : A)
| Throw (message : string).

Arguments Normal {A} a.
Arguments Throw {A} message.

(** ** The browser, as the handlers see it *)

(** [JSON.parse], [JSON.stringify(v)] and [JSON.stringify(v, null, n)]. *)
Class JsonApi : Type := {
  JsonValue : Type;
  JSON_parse : string -> Completion JsonValue;
  JSON_stringify : JsonValue -> string;
  JSON_stringify_indent : JsonValue -> nat -> string
}.

(** The WebSocket constructor and methods, [crypto.randomUUID()] and
    [new Date().toLocaleTimeString()]. The browser has a state of its own
    ([World]: sockets, clock, entropy) that every call may read and change;
    between two handlers it changes as the network and the clock dictate. *)
Class Host : Type := {
  World : Type;
  WebSocket : Type;
  WebSocket_new : string -> World -> Completion WebSocket * World;
  WebSocket_send : WebSocket -> string -> World -> Completion unit * World;
  WebSocket_close : WebSocket -> nat -> string -> World -> Completion unit * World;
  crypto_randomUUID : World -> string * World;
  Date_toLocaleTimeString : World -> string * World
}.

(** ** The component *)

Section Component.

Context {H : Host} {J : JsonApi}.

(** The calls a handler makes that the properties below speak about, in the
    order they are made: the two setters of the connection state and the three
    operations of the transport. *)
Inductive Call : Type :=
| Call_setStatus (s : Status)
| Call_setError (message : string)
| Call_WebSocket (url : string)
| Call_send (ws : WebSocket) (data : string)
| Call_close (ws : WebSocket) (code : nat) (reason : string).

(** The state of [App]: its [useState] cells, the [wsRef] cell, the sockets
    that carry the four handlers of [connect] (each with the [target] the
    closures captured), the browser, and the calls made so far. The snippet
    and template cells take no part in the handlers modelled here. *)
Record Store : Type := mkStore {
  url : string;
  isSecure : bool;
  wsRef : option WebSocket;
  status : Status;
  error : string;
  message : string;
  isJson : bool;
  log : list LogEntry;
  savedUrls : list SavedUrl;
  urlLabel : string;
  handlers : list (WebSocket * string);
  world : World;
  calls : list Call
}.

Definition with_url (v : string) (st : Store) : Store :=
  mkStore v (isSecure st) (wsRef st) (status st) (error st) (message st)
    (isJson st) (log st) (savedUrls st) (urlLabel st) (handlers st) (world st)
    (calls st).

Definition with_isSecure (v : bool) (st : Store) : Store :=
  mkStore (url st) v (wsRef st) (status st) (error st) (message st)
    (isJson st) (log st) (savedUrls st) (urlLabel st) (handlers st) (world st)
    (calls st).

Definition with_wsRef (v : option WebSocket) (st : Store) : Store :=
  mkStore (url st) (isSecure st) v (status st) (error st) (message st)
    (isJson st) (log st) (savedUrls st) (urlLabel st) (handlers st) (world st)
    (calls st).

Definition with_status (v : Status) (st : Store) : Store :=
  mkStore (url st) (isSecure st) (wsRef st) v (error st) (message st)
    (isJson st) (log st) (savedUrls st) (urlLabel st) (handlers st) (world st)
    (calls st).

Definition with_error (v : string) (st : Store) : Store :=
  mkStore (url st) (isSecure st) (wsRef st) (status st) v (message st)
    (isJson st) (log st) (savedUrls st) (urlLabel st) (handlers st) (world st)
    (calls st).

Definition with_message (v : string) (st : Store) : Store :=
  mkStore (url st) (isSecure st) (wsRef st) (status st) (error st) v
    (isJson st) (log st) (savedUrls st) (urlLabel st) (handlers st) (world st)
    (calls st).

Definition with_isJson (v : bool) (st : Store) : Store :=
  mkStore (url st) (isSecure st) (wsRef st) (status st) (error st) (message st)
    v (log st) (savedUrls st) (urlLabel st) (handlers st) (world st)
    (calls st).

Definition with_log (v : list LogEntry) (st : Store) : Store :=
  mkStore (url st) (isSecure st) (wsRef st) (status st) (error st) (message st)
    (isJson st) v (savedUrls st) (urlLabel st) (handlers st) (world st)
    (calls st).

Definition with_savedUrls (v : list SavedUrl) (st : Store) : Store :=
  mkStore (url st) (isSecure st) (wsRef st) (status st) (error st) (message st)
    (isJson st) (log st) v (urlLabel st) (handlers st) (world st) (calls st).

Definition with_urlLabel (v : string) (st : Store) : Store :=
  mkStore (url st) (isSecure st) (wsRef st) (status st) (error st) (message st)
    (isJson st) (log st) (savedUrls st) v (handlers st) (world st) (calls st).

Definition with_handlers (v : list (WebSocket * string)) (st : Store) : Store :=
  mkStore (url st) (isSecure st) (wsRef st) (status st) (error st) (message st)
    (isJson st) (log st) (savedUrls st) (urlLabel st) v (world st) (calls st).

Definition with_world (v : World) (st : Store) : Store :=
  mkStore (url st) (isSecure st) (wsRef st) (status st) (error st) (message st)
    (isJson st) (log st) (savedUrls st) (urlLabel st) (handlers st) v (calls st).

(** Records one more call. *)
Definition called (c : Call) (st : Store) : Store :=
  mkStore (url st) (isSecure st) (wsRef st) (status st) (error st) (message st)
    (isJson st) (log st) (savedUrls st) (urlLabel st) (handlers st) (world st)
    (calls st ++ [c]).

(** *** Handlers as computations over the store that may throw *)

Definition M (A : Type) : Type := Store -> Completion A * Store.

Definition ret {A : Type} (a : A) : M A := fun st => (Normal a, st).

Definition bind {A B : Type} (m : M A) (k : A -> M B) : M B :=
  fun st =>
    match m st with
    | (Normal a, st') => k a st'
    | (Throw e, st') => (Throw e, st')
    end.

Definition throw {A : Type} (e : string) : M A := fun st => (Throw e, st).

(** [try { m } catch (e) { h e }]. *)
Definition try_catch {A : Type} (m : M A) (h : string -> M A) : M A :=
  fun st =>
    match m st with
    | (Normal a, st') => (Normal a, st')
    | (Throw e, st') => h e st'
    end.

(** [try { m } finally { f }]. *)
Definition try_finally {A : Type} (m : M A) (f : M unit) : M A :=
  fun st =>
    match m st with
    | (r, st') =>
        match f st' with
        | (Normal _, st'') => (r, st'')
        | (Throw e, st'') => (Throw e, st'')
        end
    end.

Definition get {A : Type} (f : Store -> A) : M A := fun st => (Normal (f st), st).

Definition modify (f : Store -> Store) : M unit := fun st => (Normal tt, f st).

(** The value of a pure expression that may throw. *)
Definition eval {A : Type} (c : Completion A) : M A := fun st => (c, st).

(** The store a handler leaves, and what it returns or throws. *)
Definition exec {A : Type} (m : M A) (st : Store) : Store := snd (m st).

Definition result {A : Type} (m : M A) (st : Store) : Completion A := fst (m st).

End Component.

Declare Scope handler_scope.
Delimit Scope handler_scope with handler.

Notation "x <- m ;; k" := (bind m (fun x => k))
  (at level 61, m at next level, right associativity) : handler_scope.
Notation "m ;; k" := (bind m (fun _ => k))
  (at level 61, right associativity) : handler_scope.

Open Scope handler_scope.

Section Handlers.

Context {H : Host} {J : JsonApi}.

(** *** State setters and browser calls *)

Definition setStatus (s : Status) : M unit :=
  modify (fun st => called (Call_setStatus s) (with_status s st)).

Definition setError (e : string) : M unit :=
  modify (fun st => called (Call_setError e) (with_error e st)).

Definition setUrl (u : string) : M unit := modify (with_url u).

Definition setIsSecure (b : bool) : M unit := modify (with_isSecure b).

Definition setUrlLabel (l : string) : M unit := modify (with_urlLabel l).

Definition setMessage (m : string) : M unit := modify (with_message m).

Definition setIsJson (b : bool) : M unit := modify (with_isJson b).

(** [setLog(f)] and [setSavedUrls(f)] with an updater function. *)
Definition setLog (f : list LogEntry -> list LogEntry) : M unit :=
  modify (fun st => with_log (f (log st)) st).

Definition setSavedUrls (f : list SavedUrl -> list SavedUrl) : M unit :=
  modify (fun st => with_savedUrls (f (savedUrls st)) st).

(** [crypto.randomUUID()]. *)
Definition randomUUID : M string :=
  fun st =>
    let (id, w) := crypto_randomUUID (world st) in (Normal id, with_world w st).

(** [ts()]: [new Date().toLocaleTimeString()]. *)
Definition ts : M string :=
  fun st =>
    let (t, w) := Date_toLocaleTimeString (world st) in
    (Normal t, with_world w st).

(** [new WebSocket(target)]. *)
Definition newWebSocket (target : string) : M WebSocket :=
  fun st =>
    let (r, w) := WebSocket_new target (world st) in
    (r, with_world w (called (Call_WebSocket target) st)).

(** [ws.send(data)]. *)
Definition send (ws : WebSocket) (data : string) : M unit :=
  fun st =>
    let (r, w) := WebSocket_send ws data (world st) in
    (r, with_world w (called (Call_send ws data) st)).

(** [ws.close(code, reason)]. *)
Definition close (ws : WebSocket) (code : nat) (reason : string) : M unit :=
  fun st =>
    let (r, w) := WebSocket_close ws code reason (world st) in
    (r, with_world w (called (Call_close ws code reason) st)).

(** *** The log model *)

(** [addLog({ type, text })]: the updater stamps the entry with a fresh id and
    the time, and puts it after the entries there are. *)
Definition addLog (type : Direction) (text : string) : M unit :=
  id <- randomUUID ;;
  time <- ts ;;
  setLog (fun prev => (prev ++ [mkLogEntry id time type text])%list).

(** [clearLog]. *)
Definition clearLog : M unit :=
  setLog (fun _ => []) ;;
  addLog SYSTEM "Log cleared".

(** What the view renders: the [log] cell. *)
Definition snapshot (st : Store) : list LogEntry := log st.

(** Appends the given entries, one [addLog] each, first to last. *)
Fixpoint addLogs (es : list (Direction * string)) : M unit :=
  match es with
  | [] => ret tt
  | (type, text) :: es' => addLog type text ;; addLogs es'
  end.

(** *** The four handlers [connect] installs on a socket *)

(** The display rule of [onmessage]: pretty-printed when the text parses as
    JSON, as it is otherwise. *)
Definition prettyOrRaw (data : string) : M string :=
  try_catch
    (maybe <- eval (JSON_parse data) ;;
     ret (JSON_stringify_indent maybe 2))
    (fun _ => ret data).

Definition onopen (target : string) : M unit :=
  setStatus Connected ;;
  addLog SYSTEM ("Connected to " ++ target).

(** [evt.data] is taken to be the text of a text frame. *)
Definition onmessage (data : string) : M unit :=
  display <- prettyOrRaw data ;;
  addLog RECEIVED display.

(** [evt?.message] is [None] when the event has no such property. *)
Definition onerror (evt_message : option string) : M unit :=
  setError "WebSocket error occurred. Check the console or server." ;;
  addLog SYSTEM
    ("Error: " ++
     Js.or_else (match evt_message with Some m => m | None => EmptyString end)
                "An error occurred").

Definition onclose (code : nat) (reason : string) : M unit :=
  setStatus Disconnected ;;
  let reason := Js.or_else reason "Connection closed" in
  addLog SYSTEM
    ("Disconnected (" ++ Js.numberToString code ++ ") - " ++ reason).

(** A notification of the transport. *)
Inductive Notification : Type :=
| Open
| Message (data : string)
| Error (evt_message : option string)
| Close (code : nat) (reason : string).

(** The handler a socket created for [target] runs on a notification. *)
Definition notify (target : string) (n : Notification) : M unit :=
  match n with
  | Open => onopen target
  | Message data => onmessage data
  | Error m => onerror m
  | Close code reason => onclose code reason
  end.

(** *** The session controller *)

Definition connect : M unit :=
  u <- get url ;;
  secure <- get isSecure ;;
  let target := normalizeUrl secure u in
  setError EmptyString ;;
  if negb (Js.truthy target) then
    setError "Please enter a valid WebSocket URL." ;;
    addLog SYSTEM "No URL provided."
  else
    try_catch
      (addLog SYSTEM ("Connecting to " ++ target ++ " ...") ;;
       setStatus Connecting ;;
       ws <- newWebSocket target ;;
       modify (with_wsRef (Some ws)) ;;
       modify (fun st => with_handlers (handlers st ++ [(ws, target)])%list st))
      (fun e =>
         setStatus Disconnected ;;
         setError ("Failed to connect: " ++ e) ;;
         addLog SYSTEM ("Failed to connect: " ++ e)).

Definition disconnect : M unit :=
  try_finally
    (try_catch
       (current <- get wsRef ;;
        match current with
        | Some ws => close ws 1000 "User disconnect"
        | None => ret tt
        end)
       (fun _ => ret tt))
    (setStatus Disconnected ;;
     addLog SYSTEM "Disconnected by user").

(** [wsRef.current.send(payload)]. *)
Definition sendCurrent (payload : string) : M unit :=
  current <- get wsRef ;;
  match current with
  | Some ws => send ws payload
  | None => throw "Cannot read properties of null (reading 'send')"
  end.

Definition sendMessage : M unit :=
  setError EmptyString ;;
  s <- get status ;;
  current <- get wsRef ;;
  if negb (Status_eqb s Connected)
     || match current with Some _ => false | None => true end
  then
    setError "Not connected to a WebSocket server." ;;
    addLog SYSTEM "Cannot send: not connected"
  else
    msg <- get message ;;
    if negb (Js.truthy (Js.trim msg)) then ret tt
    else
      json <- get isJson ;;
      prepared <-
        (if json then
           try_catch
             (parsed <- eval (JSON_parse msg) ;;
              ret (Some (JSON_stringify parsed)))
             (fun e =>
                setError ("Invalid JSON: " ++ e) ;;
                addLog SYSTEM ("Invalid JSON: " ++ e) ;;
                ret None)
         else ret (Some msg)) ;;
      match prepared with
      | None => ret tt
      | Some payload =>
          try_catch
            (sendCurrent payload ;;
             display <- (if json then prettyOrRaw payload else ret payload) ;;
             addLog SENT display)
            (fun e =>
               setError ("Send failed: " ++ e) ;;
               addLog SYSTEM ("Send failed: " ++ e))
      end.

(** The cleanup of the unmount effect. *)
Definition unmount : M unit :=
  try_catch
    (current <- get wsRef ;;
     match current with
     | Some ws => close ws 1000 "Component unmounted"
     | None => ret tt
     end)
    (fun _ => ret tt).

(** *** Saved connections *)

(** The test of the updater in [saveCurrentUrl]. *)
Definition sameSaved (entry x : SavedUrl) : bool :=
  String.eqb (saved_url x) (saved_url entry)
  && Bool.eqb (saved_secure x) (saved_secure entry)
  && String.eqb (saved_label x) (saved_label entry).

Definition saveCurrentUrl : M unit :=
  raw <- get url ;;
  let u := Js.trim raw in
  if negb (Js.truthy u) then ret tt
  else
    id <- randomUUID ;;
    label <- get urlLabel ;;
    secure <- get isSecure ;;
    let entry := mkSavedUrl id (Js.or_else (Js.trim label) u) u secure in
    setSavedUrls
      (fun prev =>
         let exists_ := existsb (sameSaved entry) prev in
         if exists_ then prev else (prev ++ [entry])%list) ;;
    setUrlLabel EmptyString.

Definition selectSavedUrl (entry : SavedUrl) : M unit :=
  setUrl (saved_url entry) ;;
  setIsSecure (saved_secure entry).

Definition deleteSavedUrl (id : string) : M unit :=
  setSavedUrls (filter (fun x => negb (String.eqb (saved_id x) id))).

End Handlers.

(** ** A reference browser

    A [JsonApi] and a [Host] to run the handlers against. The JSON texts
    covered are those whose numbers are integers that a double holds exactly;
    the error messages are this model's own, as every engine words its own. *)

Module Json.

#[warnings="-register-all"]
Inductive value : Type :=
| Null
| Bool (b : bool)
| Number (n : Z)
| Str (s : string)
| Array (items : list value)
| Object (members : list (string * value)).

Definition dq : string := String "034"%char EmptyString.
Definition nl : string := String "010"%char EmptyString.

Definition isJsonSpace (c : ascii) : bool :=
  let n := nat_of_ascii c in
  (n =? 32)%nat || (n =? 9)%nat || (n =? 10)%nat || (n =? 13)%nat.

Fixpoint skip (s : string) : string :=
  match s with
  | EmptyString => EmptyString
  | String c s' => if isJsonSpace c then skip s' else s
  end.

(** The message of the SyntaxError raised at the input that is left. *)
Definition unexpected (s : string) : string :=
  match s with
  | EmptyString => "Unexpected end of JSON input"
  | String c _ => "Unexpected token " ++ String c EmptyString ++ " in JSON"
  end.

Fixpoint dropPrefix (p s : string) : option string :=
  match p, s with
  | EmptyString, _ => Some s
  | String a p', String b s' => if Ascii.eqb a b then dropPrefix p' s' else None
  | String _ _, EmptyString => None
  end.

Definition literal (word : string) (v : value) (s : string)
  : Completion (value * string) :=
  match dropPrefix word s with
  | Some rest => Normal (v, rest)
  | None => Throw (unexpected s)
  end.

Definition digit (c : ascii) : option Z :=
  let n := nat_of_ascii c in
  if (48 <=? n)%nat && (n <=? 57)%nat then Some (Z.of_nat (n - 48)) else None.

Fixpoint digits (acc : Z) (s : string) : Z * string :=
  match s with
  | EmptyString => (acc, s)
  | String c s' =>
      match digit c with
      | Some d => digits (10 * acc + d) s'
      | None => (acc, s)
      end
  end.

Definition unsigned (s : string) : Completion (Z * string) :=
  match s with
  | EmptyString => Throw (unexpected s)
  | String c s' =>
      match digit c with
      | Some 0%Z => Normal (0%Z, s')
      | Some d => Normal (digits d s')
      | None => Throw (unexpected s)
      end
  end.

Definition number (s : string) : Completion (value * string) :=
  match s with
  | String "-" s' =>
      match unsigned s' with
      | Normal (n, rest) => Normal (Number (- n), rest)
      | Throw e => Throw e
      end
  | _ =>
      match unsigned s with
      | Normal (n, rest) => Normal (Number n, rest)
      | Throw e => Throw e
      end
  end.

Definition hex (c : ascii) : option nat :=
  let n := nat_of_ascii c in
  if (48 <=? n)%nat && (n <=? 57)%nat then Some (n - 48)
  else if (97 <=? n)%nat && (n <=? 102)%nat then Some (n - 87)
  else if (65 <=? n)%nat && (n <=? 70)%nat then Some (n - 55)
  else None.

(** The character a two-character escape stands for. *)
Definition escaped (e : ascii) : option ascii :=
  let n := nat_of_ascii e in
  if (n =? 34)%nat then Some "034"%char
  else if (n =? 92)%nat then Some "\"%char
  else if (n =? 47)%nat then Some "/"%char
  else if (n =? 98)%nat then Some "008"%char
  else if (n =? 102)%nat then Some "012"%char
  else if (n =? 110)%nat then Some "010"%char
  else if (n =? 114)%nat then Some "013"%char
  else if (n =? 116)%nat then Some "009"%char
  else None.

Definition cons_char (c : ascii) (r : Completion (string * string))
  : Completion (string * string) :=
  match r with
  | Normal (s, rest) => Normal (String c s, rest)
  | Throw e => Throw e
  end.

(** The characters of a string literal after its opening quote, and the input
    after its closing quote. *)
Fixpoint chars (s : string) : Completion (string * string) :=
  match s with
  | EmptyString => Throw "Unterminated string in JSON"
  | String c s' =>
      if (nat_of_ascii c =? 34)%nat then Normal (EmptyString, s')
      else if (nat_of_ascii c =? 92)%nat then
        match s' with
        | EmptyString => Throw "Unterminated string in JSON"
        | String e s'' =>
            match escaped e with
            | Some c' => cons_char c' (chars s'')
            | None =>
                match s'' with
                | String h1 (String h2 (String h3 (String h4 s5))) =>
                    match Ascii.eqb e "u", hex h1, hex h2, hex h3, hex h4 with
                    | true, Some 0, Some 0, Some a, Some b =>
                        cons_char (ascii_of_nat (16 * a + b)) (chars s5)
                    | _, _, _, _, _ => Throw "Bad escaped character in JSON"
                    end
                | _ => Throw "Bad escaped character in JSON"
                end
            end
        end
      else if (nat_of_ascii c <? 32)%nat then
        Throw "Bad control character in string literal in JSON"
      else cons_char c (chars s')
  end.

(** The key is an array index: a canonical numeric string below 2^32 - 1. *)
Definition arrayIndex (k : string) : option Z :=
  match unsigned k with
  | Normal (n, EmptyString) => if (n <? 4294967295)%Z then Some n else None
  | _ => None
  end.

(** Defines the property [k] of an object under construction: a second
    definition replaces the value where the key stands; array indices are
    kept in ascending order before the other keys, which keep the order in
    which they were defined. *)
Fixpoint setProperty (k : string) (v : value) (ms : list (string * value))
  : list (string * value) :=
  match ms with
  | [] => [(k, v)]
  | (k', v') :: ms' =>
      if String.eqb k k' then (k, v) :: ms'
      else
        match arrayIndex k, arrayIndex k' with
        | Some i, Some i' =>
            if (i <? i')%Z then (k, v) :: ms
            else (k', v') :: setProperty k v ms'
        | Some _, None => (k, v) :: ms
        | None, _ => (k', v') :: setProperty k v ms'
        end
  end.

Fixpoint parseValue (fuel : nat) (s : string) {struct fuel}
  : Completion (value * string) :=
  match fuel with
  | O => Throw "Maximum call stack size exceeded"
  | S fuel' =>
      match s with
      | EmptyString => Throw (unexpected s)
      | String c s' =>
          if Ascii.eqb c "n" then literal "null" Null s
          else if Ascii.eqb c "t" then literal "true" (Bool true) s
          else if Ascii.eqb c "f" then literal "false" (Bool false) s
          else if (nat_of_ascii c =? 34)%nat then
            match chars s' with
            | Normal (str, rest) => Normal (Str str, rest)
            | Throw e => Throw e
            end
          else if Ascii.eqb c "[" then
            match skip s' with
            | String "]" rest => Normal (Array [], rest)
            | s1 =>
                match parseElements fuel' s1 with
                | Normal (items, rest) => Normal (Array items, rest)
                | Throw e => Throw e
                end
            end
          else if Ascii.eqb c "{" then
            match skip s' with
            | String "}" rest => Normal (Object [], rest)
            | s1 =>
                match parseMembers fuel' [] s1 with
                | Normal (members, rest) => Normal (Object members, rest)
                | Throw e => Throw e
                end
            end
          else number s
      end
  end

with parseElements (fuel : nat) (s : string) {struct fuel}
  : Completion (list value * string) :=
  match fuel with
  | O => Throw "Maximum call stack size exceeded"
  | S fuel' =>
      match parseValue fuel' (skip s) with
      | Throw e => Throw e
      | Normal (v, r) =>
          match skip r with
          | String "," r' =>
              match parseElements fuel' r' with
              | Normal (vs, rest) => Normal (v :: vs, rest)
              | Throw e => Throw e
              end
          | String "]" rest => Normal ([v], rest)
          | r0 => Throw (unexpected r0)
          end
      end
  end

with parseMembers (fuel : nat) (acc : list (string * value)) (s : string)
  {struct fuel} : Completion (list (string * value) * string) :=
  match fuel with
  | O => Throw "Maximum call stack size exceeded"
  | S fuel' =>
      match skip s with
      | String "034" s1 =>
          match chars s1 with
          | Throw e => Throw e
          | Normal (k, s2) =>
              match skip s2 with
              | String ":" s3 =>
                  match parseValue fuel' (skip s3) with
                  | Throw e => Throw e
                  | Normal (v, r) =>
                      match skip r with
                      | String "," r' =>
                          parseMembers fuel' (setProperty k v acc) r'
                      | String "}" rest =>
                          Normal (setProperty k v acc, rest)
                      | r0 => Throw (unexpected r0)
                      end
                  end
              | s0 => Throw (unexpected s0)
              end
          end
      | s0 => Throw (unexpected s0)
      end
  end.

(** [JSON.parse(text)]. *)
Definition parse (text : string) : Completion value :=
  match parseValue (2 * String.length text + 2) (skip text) with
  | Throw e => Throw e
  | Normal (v, rest) =>
      match skip rest with
      | EmptyString => Normal v
      | r0 => Throw (unexpected r0)
      end
  end.

Definition hexDigit (n : nat) : ascii :=
  ascii_of_nat (if (n <? 10)%nat then 48 + n else 87 + n).

(** QuoteJSONString, one code unit. *)
Definition quoteChar (c : ascii) : string :=
  let n := nat_of_ascii c in
  if (n =? 34)%nat then "\" ++ dq
  else if (n =? 92)%nat then "\\"
  else if (n =? 8)%nat then "\b"
  else if (n =? 12)%nat then "\f"
  else if (n =? 10)%nat then "\n"
  else if (n =? 13)%nat then "\r"
  else if (n =? 9)%nat then "\t"
  else if (n <? 32)%nat then
    "\u00" ++ String (hexDigit (n / 16)) (String (hexDigit (n mod 16)) EmptyString)
  else String c EmptyString.

Fixpoint quoteChars (s : string) : string :=
  match s with
  | EmptyString => EmptyString
  | String c s' => quoteChar c ++ quoteChars s'
  end.

Definition quote (s : string) : string := dq ++ quoteChars s ++ dq.

Definition numberText (n : Z) : string := NilZero.string_of_int (Z.to_int n).

(** [JSON.stringify(v)]. *)
Fixpoint stringify (v : value) : string :=
  match v with
  | Null => "null"
  | Bool true => "true"
  | Bool false => "false"
  | Number n => numberText n
  | Str s => quote s
  | Array items => "[" ++ String.concat "," (map stringify items) ++ "]"
  | Object members =>
      "{" ++
      String.concat ","
        (map (fun m => match m with (k, x) => quote k ++ ":" ++ stringify x end)
             members)
      ++ "}"
  end.

(** [JSON.stringify(v, null, n)] for a non-empty [gap], at the indentation
    [indent]. *)
Fixpoint indented (gap indent : string) (v : value) : string :=
  let inner := indent ++ gap in
  let sep := "," ++ nl ++ inner in
  match v with
  | Array [] => "[]"
  | Array items =>
      "[" ++ nl ++ inner ++ String.concat sep (map (indented gap inner) items)
      ++ nl ++ indent ++ "]"
  | Object [] => "{}"
  | Object members =>
      "{" ++ nl ++ inner ++
      String.concat sep
        (map (fun m =>
                match m with
                | (k, x) => quote k ++ ": " ++ indented gap inner x
                end)
             members)
      ++ nl ++ indent ++ "}"
  | _ => stringify v
  end.

Fixpoint spaces (n : nat) : string :=
  match n with
  | O => EmptyString
  | S n' => String " " (spaces n')
  end.

Definition stringifyIndent (v : value) (n : nat) : string :=
  match n with
  | O => stringify v
  | _ => indented (spaces (Nat.min n 10)) EmptyString v
  end.

End Json.

#[export] Instance ecma : JsonApi := {
  JsonValue := Json.value;
  JSON_parse := Json.parse;
  JSON_stringify := Json.stringify;
  JSON_stringify_indent := Json.stringifyIndent
}.

Module Browser.

Inductive ReadyState : Type := CONNECTING | OPEN | CLOSING | CLOSED.

(** A socket of the page: its URL, its state, and the frames it was given
    while open. *)
Record Socket : Type := mkSocket {
  socket_url : string;
  readyState : ReadyState;
  frames : list string
}.

(** The sockets created so far (a socket is known by its position), the count
    of identifiers handed out, and the clock. *)
Record State : Type := mkState {
  sockets : list Socket;
  uuids : nat;
  clock : nat
}.

Fixpoint until (stop : ascii -> bool) (s : string) : string :=
  match s with
  | EmptyString => EmptyString
  | String c s' => if stop c then EmptyString else String c (until stop s')
  end.

Fixpoint anyChar (p : ascii -> bool) (s : string) : bool :=
  match s with
  | EmptyString => false
  | String c s' => p c || anyChar p s'
  end.

Definition isDelimiter (c : ascii) : bool :=
  Ascii.eqb c "/" || Ascii.eqb c "?" || Ascii.eqb c "#".

(** What follows the scheme of a WebSocket URL. *)
Definition afterScheme (u : string) : option string :=
  match Json.dropPrefix "ws://" u with
  | Some rest => Some rest
  | None => Json.dropPrefix "wss://" u
  end.

(** The constructor accepts the URL: it has one of the two schemes, a host
    that is not empty and holds no white space, and no fragment. *)
Definition acceptsUrl (u : string) : bool :=
  match afterScheme u with
  | None => false
  | Some rest =>
      let host := until isDelimiter rest in
      Js.truthy host
      && negb (anyChar Js.isWhiteSpace host)
      && negb (anyChar (Ascii.eqb "#") rest)
  end.

Definition new (u : string) (w : State) : Completion nat * State :=
  if acceptsUrl u then
    (Normal (length (sockets w)),
     mkState (sockets w ++ [mkSocket u CONNECTING []]) (uuids w) (clock w))
  else
    (Throw ("Failed to construct 'WebSocket': The URL '" ++ u ++ "' is invalid."),
     w).

Fixpoint update (i : nat) (f : Socket -> Socket) (l : list Socket)
  : list Socket :=
  match l, i with
  | [], _ => []
  | s :: l', O => f s :: l'
  | s :: l', S i' => s :: update i' f l'
  end.

Definition withSockets (l : list Socket) (w : State) : State :=
  mkState l (uuids w) (clock w).

(** [send] throws on a socket that is still connecting, queues the frame on
    an open one, and drops it on a closing or closed one. *)
Definition send (ws : nat) (data : string) (w : State)
  : Completion unit * State :=
  match nth_error (sockets w) ws with
  | None => (Throw "Illegal invocation", w)
  | Some s =>
      match readyState s with
      | CONNECTING =>
          (Throw "Failed to execute 'send' on 'WebSocket': Still in CONNECTING state.",
           w)
      | OPEN =>
          (Normal tt,
           withSockets
             (update ws
                (fun s => mkSocket (socket_url s) OPEN (frames s ++ [data]))
                (sockets w))
             w)
      | _ => (Normal tt, w)
      end
  end.

(** [close] refuses a code other than 1000 and 3000 to 4999 and a reason
    longer than 123 bytes, and otherwise starts the closing handshake. *)
Definition close (ws : nat) (code : nat) (reason : string) (w : State)
  : Completion unit * State :=
  if negb ((code =? 1000)%nat || ((3000 <=? code)%nat && (code <=? 4999)%nat))
  then
    (Throw "Failed to execute 'close' on 'WebSocket': The code must be either 1000, or between 3000 and 4999.",
     w)
  else if (123 <? String.length reason)%nat then
    (Throw "Failed to execute 'close' on 'WebSocket': The message must not be greater than 123 bytes.",
     w)
  else
    (Normal tt,
     withSockets
       (update ws
          (fun s =>
             match readyState s with
             | CLOSED => s
             | _ => mkSocket (socket_url s) CLOSING (frames s)
             end)
          (sockets w))
       w).

Definition randomUUID (w : State) : string * State :=
  ("uuid-" ++ Js.numberToString (uuids w),
   mkState (sockets w) (S (uuids w)) (clock w)).

Definition toLocaleTimeString (w : State) : string * State :=
  (Js.numberToString (clock w) ++ " s", w).

(** The handshake of socket [ws] completing. *)
Definition opened (ws : nat) (w : State) : State :=
  withSockets
    (update ws (fun s => mkSocket (socket_url s) OPEN (frames s)) (sockets w))
    w.

(** The closing handshake of socket [ws] completing. *)
Definition closed (ws : nat) (w : State) : State :=
  withSockets
    (update ws (fun s => mkSocket (socket_url s) CLOSED (frames s)) (sockets w))
    w.

Definition start : State := mkState [] 0 0.

End Browser.

#[export] Instance browser : Host := {
  World := Browser.State;
  WebSocket := nat;
  WebSocket_new := Browser.new;
  WebSocket_send := Browser.send;
  WebSocket_close := Browser.close;
  crypto_randomUUID := Browser.randomUUID;
  Date_toLocaleTimeString := Browser.toLocaleTimeString
}.

(** The component as it is mounted in the reference browser. *)
Definition mounted : @Store browser :=
  mkStore EmptyString true None Disconnected EmptyString EmptyString false
    [] [] EmptyString [] Browser.start [].

(** The mounted component with [u] typed into the URL field. *)
Definition typedUrl (u : string) : @Store browser := with_url u mounted.

(** ** What a handler did, read off the store it leaves *)

Section Observations.

Context {H : Host}.

(** The direction and text of an entry: what the caller of [addLog] chose. *)
Definition content (e : LogEntry) : Direction * string :=
  (entry_type e, entry_text e).

(** [new] is [old] followed by entries of the given contents, in that order:
    nothing of [old] was touched and exactly [length es] entries were added. *)
Definition appended (old new : list LogEntry) (es : list (Direction * string))
  : Prop :=
  exists added, new = (old ++ added)%list /\ map content added = es.

(** The status and the error message the setter calls of a handler leave. *)
Fixpoint statusAfter (cs : list Call) (s : Status) : Status :=
  match cs with
  | [] => s
  | Call_setStatus s' :: cs' => statusAfter cs' s'
  | _ :: cs' => statusAfter cs' s
  end.

Fixpoint errorAfter (cs : list Call) (e : string) : string :=
  match cs with
  | [] => e
  | Call_setError e' :: cs' => errorAfter cs' e'
  | _ :: cs' => errorAfter cs' e
  end.

(** From [st] to [st'] the calls [cs] were made and entries of contents [es]
    were logged; status and error are what the setters among [cs] say. *)
Definition effects (st st' : Store) (cs : list Call)
  (es : list (Direction * string)) : Prop :=
  calls st' = (calls st ++ cs)%list
  /\ appended (log st) (log st') es
  /\ status st' = statusAfter cs (status st)
  /\ error st' = errorAfter cs (error st).

(** The calls made from [st] to [st']. *)
Definition newCalls (st st' : Store) : list Call :=
  skipn (length (calls st)) (calls st').

(** The entries logged from [st] to [st']. *)
Definition newEntries (st st' : Store) : list LogEntry :=
  skipn (length (log st)) (log st').

Definition isSend (c : Call) : bool :=
  match c with
  | Call_send _ _ => true
  | _ => false
  end.

Definition isConstruct (c : Call) : bool :=
  match c with
  | Call_WebSocket _ => true
  | _ => false
  end.

(** The call reports an error: [setError] with a message. *)
Definition isErrorReport (c : Call) : bool :=
  match c with
  | Call_setError m => Js.truthy m
  | _ => false
  end.

Definition isSent (e : LogEntry) : bool :=
  match entry_type e with
  | SENT => true
  | _ => false
  end.

(** The browser after the two calls by which [addLog] stamps an entry. *)
Definition stamped (w : World) : World :=
  snd (Date_toLocaleTimeString (snd (crypto_randomUUID w))).

End Observations.

(** ** The operations of the session controller, as one type *)

Inductive Operation : Type :=
| Connect
| Disconnect
| Send
| Notify (target : string) (n : Notification).

Section Operations.

Context {H : Host} {J : JsonApi}.

Definition perform (op : Operation) : M unit :=
  match op with
  | Connect => connect
  | Disconnect => disconnect
  | Send => sendMessage
  | Notify target n => notify target n
  end.

(** The invocation changes the status field or reports an error. *)
Definition eventful (op : Operation) (st : Store) : bool :=
  let st' := exec (perform op) st in
  negb (Status_eqb (status st') (status st))
  || existsb isErrorReport (newCalls st st').

(** [connect] reaches the constructor and the constructor throws. *)
Definition constructorThrows (st : Store) : bool :=
  let target := normalizeUrl (isSecure st) (url st) in
  Js.truthy target
  && match fst (WebSocket_new target (stamped (world st))) with
     | Throw _ => true
     | Normal _ => false
     end.

(** The payload [sendMessage] hands to the transport: the message, or in
    JSON mode its re-serialisation; the parse error when it does not parse. *)
Definition prepared (st : Store) : Completion string :=
  if isJson st then
    match JSON_parse (message st) with
    | Normal parsed => Normal (JSON_stringify parsed)
    | Throw e => Throw e
    end
  else Normal (message st).

(** The display rule: indented by two when the text parses as JSON, the text
    itself otherwise. *)
Definition pretty (text : string) : string :=
  match JSON_parse text with
  | Normal v => JSON_stringify_indent v 2
  | Throw _ => text
  end.

(** The text of the Sent entry for a payload. *)
Definition display (json : bool) (payload : string) : string :=
  if json then pretty payload else payload.

End Operations.

(** ** The life of the mounted component *)

Section Lifecycle.

Context {H : Host} {J : JsonApi}.

(** One thing happening to the component: a button is pressed, a field is
    edited, a socket that carries the handlers of [connect] delivers a
    notification, or the browser moves on by itself. *)
Inductive Step : Store -> Store -> Prop :=
| Step_connect st : Step st (exec connect st)
| Step_disconnect st : Step st (exec disconnect st)
| Step_send st : Step st (exec sendMessage st)
| Step_notify st ws target n :
    In (ws, target) (handlers st) -> Step st (exec (notify target n) st)
| Step_clearLog st : Step st (exec clearLog st)
| Step_save st : Step st (exec saveCurrentUrl st)
| Step_select st entry : Step st (exec (selectSavedUrl entry) st)
| Step_delete st id : Step st (exec (deleteSavedUrl id) st)
| Step_url st u : Step st (exec (setUrl u) st)
| Step_secure st b : Step st (exec (setIsSecure b) st)
| Step_message st m : Step st (exec (setMessage m) st)
| Step_json st b : Step st (exec (setIsJson b) st)
| Step_label st l : Step st (exec (setUrlLabel l) st)
| Step_browser st w : Step st (with_world w st).

(** The states the component goes through after it is mounted: disconnected,
    with no socket in [wsRef] and none created. *)
Inductive Reachable : Store -> Prop :=
| Reachable_mounted st :
    status st = Disconnected -> wsRef st = None -> handlers st = [] ->
    Reachable st
| Reachable_step st st' : Reachable st -> Step st st' -> Reachable st'.

(** The socket and the handlers a state holds. *)
Definition held (st : Store) : option WebSocket * list (WebSocket * string) :=
  (wsRef st, handlers st).

(** The computation leaves the observation [f] of the store as it is. *)
Definition keeps {A B : Type} (f : Store -> B) (m : M A) : Prop :=
  forall st, f (snd (m st)) = f st.

(** While no socket was ever created the status is not Connected, and once
    one was, [wsRef] holds a socket. *)
Definition Settled (st : Store) : Prop :=
  (handlers st = [] -> status st <> Connected)
  /\ (handlers st <> [] -> wsRef st <> None).

End Lifecycle.

(** ** Sessions in the reference browser *)

(** [connect] pressed with [u] in the URL field. *)
Definition dialled (u : string) : @Store browser :=
  exec connect (typedUrl u).

(** The first socket's handshake completes and its [onopen] runs. *)
Definition established (u : string) : @Store browser :=
  let st := dialled u in
  exec (onopen (normalizeUrl true u))
       (with_world (Browser.opened 0 (world st)) st).

(** [msg] typed into the message box, with the JSON switch as given. *)
Definition composing (msg : string) (json : bool) (st : @Store browser)
  : @Store browser :=
  with_isJson json (with_message msg st).

(** [connect] pressed a second time while the first socket is still
    connecting (the second socket replaces it in [wsRef]), and then the first
    socket's handshake completes: the status is Connected on account of the
    first socket while [wsRef] holds the second, which is still connecting. *)
Definition superseded (u : string) : @Store browser :=
  let st := exec connect (dialled u) in
  exec (onopen (normalizeUrl true u))
       (with_world (Browser.opened 0 (world st)) st).

(** The same mismatch reached through the buttons as the view enables them
    (Connect while the status is Disconnected, Disconnect while it is
    Connected): connect and open; disconnect; connect again; the first
    socket's close arrives and resets the status; connect a third time; the
    second socket opens. *)
Definition raced (u : string) : @Store browser :=
  let target := normalizeUrl true u in
  let s3 := exec disconnect (established u) in
  let s4 := exec connect s3 in
  let s5 :=
    exec (onclose 1000 "User disconnect")
         (with_world (Browser.closed 0 (world s4)) s4) in
  let s6 := exec connect s5 in
  exec (onopen target) (with_world (Browser.opened 1 (world s6)) s6).

(** The payload [{"a":1}], its compact and its indented serialisation. *)
Definition payload_a1 : string := "{" ++ Json.dq ++ "a" ++ Json.dq ++ ":1}".

Definition pretty_a1 : string :=
  "{" ++ Json.nl ++ "  " ++ Json.dq ++ "a" ++ Json.dq ++ ": 1" ++ Json.nl ++ "}".

(** The identifier is one the reference browser handed out before it came
    to the state [w]. *)
Definition issued (w : Browser.State) (id : string) : Prop :=
  exists k, k < Browser.uuids w /\ id = "uuid-" ++ Js.numberToString k.

(** The saved entries carry identifiers the browser handed out, no two of
    them the same one. *)
Definition savedIdentified (st : @Store browser) : Prop :=
  Forall (issued (world st)) (map saved_id (savedUrls st))
  /\ NoDup (map saved_id (savedUrls st)).

(** ** Rules of the design document, as it words them *)

Section Rules.

Context {H : Host} {J : JsonApi}.

(** An invocation that changes the status or reports an error appends
    exactly one entry. *)
Definition one_entry_rule (op : Operation) (st : Store) : Prop :=
  eventful op st = true ->
  length (log (exec (perform op) st)) = S (length (log st)).

(** The entries an eventful invocation appends: two when [connect] reaches a
    constructor that throws, one otherwise. *)
Definition entriesDue (op : Operation) (st : Store) : nat :=
  match op with
  | Connect => if constructorThrows st then 2 else 1
  | _ => 1
  end.

(** Connected and in JSON mode, sending the message [payload] hands the
    compact text [compact] to the transport and appends exactly one Sent
    entry, of text [indented]. *)
Definition sent_entry_rule (payload compact indented : string) (st : Store)
  : Prop :=
  status st = Connected ->
  isJson st = true ->
  message st = payload ->
  let st' := exec sendMessage st in
  map content (filter isSent (newEntries st st')) = [(SENT, indented)]
  /\ exists ws, filter isSend (newCalls st st') = [Call_send ws compact].

(** In JSON mode a message that does not parse ends in an error message,
    with nothing sent and no Sent entry. *)
Definition unparsable_rule (st : Store) : Prop :=
  isJson st = true ->
  (exists e, JSON_parse (message st) = Throw e) ->
  let st' := exec sendMessage st in
  Js.truthy (error st') = true
  /\ existsb isSend (newCalls st st') = false
  /\ existsb isSent (newEntries st st') = false.

(** The URL and the label of the entry [saveCurrentUrl] builds. *)
Definition currentUrl (st : Store) : string := Js.trim (url st).

Definition currentLabel (st : Store) : string :=
  Js.or_else (Js.trim (urlLabel st)) (currentUrl st).

(** A saved entry has the URL, the secure flag and the label of the entry to
    save. *)
Definition alreadySaved (st : Store) : Prop :=
  exists x,
    In x (savedUrls st)
    /\ saved_url x = currentUrl st
    /\ saved_secure x = isSecure st
    /\ saved_label x = currentLabel st.

(** Saving leaves the collection as it is when the entry is saved already,
    and otherwise appends one entry under an identifier that no saved entry
    has. *)
Definition save_rule (st : Store) : Prop :=
  let st' := exec saveCurrentUrl st in
  (alreadySaved st -> savedUrls st' = savedUrls st)
  /\ (~ alreadySaved st ->
      exists entry,
        savedUrls st' = (savedUrls st ++ [entry])%list
        /\ ~ In (saved_id entry) (map saved_id (savedUrls st))).

End Rules.

(** An input without the prefix gets the protocol of the flag in front; an
    input with the prefix is returned as it is. *)
Definition normalization_rule (secure : bool) (u : string) : Prop :=
  (hasWsPrefix u = false -> normalizeUrl secure u = protocolHint secure ++ u)
  /\ (hasWsPrefix u = true -> normalizeUrl secure u = u).

(** ** What the view enables *)

Section View.

Context {H : Host}.

(** [connected] and [connecting], as the render computes them. *)
Definition connected (st : Store) : bool := Status_eqb (status st) Connected.

Definition connecting (st : Store) : bool := Status_eqb (status st) Connecting.

(** The Connect button is rendered when [!connected], with
    [disabled={connecting}]; the Disconnect button is rendered otherwise. *)
Definition connectShown (st : Store) : bool := negb (connected st).

Definition connectDisabled (st : Store) : bool := connecting st.

Definition disconnectShown (st : Store) : bool := connected st.

(** Send: [disabled={!connected || !message.trim()}]. *)
Definition sendDisabled (st : Store) : bool :=
  negb (connected st) || negb (Js.truthy (Js.trim (message st))).

Definition isClose (c : Call) : bool :=
  match c with
  | Call_close _ _ _ => true
  | _ => false
  end.

(** The call is one of the three operations of the transport. *)
Definition isTransport (c : Call) : bool :=
  match c with
  | Call_WebSocket _ | Call_send _ _ | Call_close _ _ _ => true
  | _ => false
  end.

End View.

(** ** Snippets and templates *)

(** A snippet or a template, [{ id, name, content, type }]. *)
Record Snippet : Type := mkSnippet {
  snippet_id : string;
  snippet_name : string;
  snippet_content : string;
  snippet_type : string
}.

(** [DEFAULT_SNIPPETS]; the three JSON contents are
    [JSON.stringify(..., null, 2)] of the objects of the source. *)
Definition DEFAULT_SNIPPETS : list Snippet :=
  [ mkSnippet "ex-hello" "Hello text" "Hello, WebSocket!" "text";
    mkSnippet "ex-ping" "JSON Ping"
      (Json.stringifyIndent (Json.Object [("type", Json.Str "ping")]) 2)
      "json";
    mkSnippet "ex-echo" "Echo JSON"
      (Json.stringifyIndent
         (Json.Object [("action", Json.Str "echo"); ("value", Json.Str "sample")])
         2)
      "json";
    mkSnippet "ex-time" "Time request"
      (Json.stringifyIndent (Json.Object [("cmd", Json.Str "time")]) 2)
      "json" ].

(** [s.id.startsWith('ex-')]. *)
Definition isExample (s : Snippet) : bool := Js.startsWith (snippet_id s) "ex-".

(** [snippets.filter((s) => !s.id?.startsWith('ex-'))]: what the persisting
    effect writes to storage, and the [user] part of [allSnippets]. *)
Definition userSnippets (snippets : list Snippet) : list Snippet :=
  filter (fun s => negb (isExample s)) snippets.

(** [allSnippets]: what the snippets panel shows. *)
Definition allSnippets (snippets : list Snippet) : list Snippet :=
  (DEFAULT_SNIPPETS ++ userSnippets snippets)%list.

Section Library.

Context {H : Host}.

(** The cells of [App] beside those of [Store]: the snippets and templates
    with their name fields. *)
Record Panel : Type := mkPanel {
  app : Store;
  snippets : list Snippet;
  snippetName : string;
  templates : list Snippet;
  templateName : string
}.

Definition with_app (v : Store) (p : Panel) : Panel :=
  mkPanel v (snippets p) (snippetName p) (templates p) (templateName p).

Definition with_snippets (v : list Snippet) (p : Panel) : Panel :=
  mkPanel (app p) v (snippetName p) (templates p) (templateName p).

Definition with_snippetName (v : string) (p : Panel) : Panel :=
  mkPanel (app p) (snippets p) v (templates p) (templateName p).

Definition with_templates (v : list Snippet) (p : Panel) : Panel :=
  mkPanel (app p) (snippets p) (snippetName p) v (templateName p).

Definition with_templateName (v : string) (p : Panel) : Panel :=
  mkPanel (app p) (snippets p) (snippetName p) (templates p) v.

(** [applySnippet] and [applyTemplate] have the same body. *)
Definition applySnippet (snippet : Snippet) (p : Panel) : Panel :=
  with_app
    (exec (setMessage (snippet_content snippet) ;;
           setIsJson (String.eqb (snippet_type snippet) "json"))
          (app p))
    p.

Definition applyTemplate (tpl : Snippet) (p : Panel) : Panel :=
  with_app
    (exec (setMessage (snippet_content tpl) ;;
           setIsJson (String.eqb (snippet_type tpl) "json"))
          (app p))
    p.

(** [deleteSnippet]: the filter keeps [s.id !== id || s.id.startsWith('ex-')]. *)
Definition deleteSnippet (id : string) (p : Panel) : Panel :=
  with_snippets
    (filter (fun s => negb (String.eqb (snippet_id s) id) || isExample s)
            (snippets p))
    p.

(** The Delete button of a snippet card, rendered when
    [!snip.id.startsWith('ex-')]: the filter keeps [s.id !== snip.id]. *)
Definition removeSnippet (snip : Snippet) (p : Panel) : Panel :=
  with_snippets
    (filter (fun s => negb (String.eqb (snippet_id s) (snippet_id snip)))
            (snippets p))
    p.

Definition saveCurrentAsSnippet (p : Panel) : Panel :=
  let content := Js.trim (message (app p)) in
  if negb (Js.truthy content) then p
  else
    let type := if isJson (app p) then "json" else "text" in
    let name :=
      Js.or_else (Js.trim (snippetName p))
                 (if isJson (app p) then "Saved JSON" else "Saved text") in
    let (id, w) := crypto_randomUUID (world (app p)) in
    let newSnippet := mkSnippet id name content type in
    with_snippetName EmptyString
      (with_snippets (snippets p ++ [newSnippet])
         (with_app (with_world w (app p)) p)).

Definition saveCurrentAsTemplate (p : Panel) : Panel :=
  let content := Js.trim (message (app p)) in
  if negb (Js.truthy content) then p
  else
    let name :=
      Js.or_else (Js.trim (templateName p))
                 (if isJson (app p) then "New JSON template"
                  else "New text template") in
    let (id, w) := crypto_randomUUID (world (app p)) in
    let newItem :=
      mkSnippet id name content (if isJson (app p) then "json" else "text") in
    with_templateName EmptyString
      (with_templates (templates p ++ [newItem])
         (with_app (with_world w (app p)) p)).

Definition deleteTemplate (id : string) (p : Panel) : Panel :=
  with_templates
    (filter (fun t => negb (String.eqb (snippet_id t) id)) (templates p)) p.

End Library.

(** ** Sockets and their handlers *)

Section Wiring.

Context {H : Host}.

(** The socket in [wsRef] is one that carries the handlers of [connect], and
    every socket that does was created for a URL that begins with ws:// or
    wss://. *)
Definition Wired (st : Store) : Prop :=
  (forall ws, wsRef st = Some ws -> exists target, In (ws, target) (handlers st))
  /\ (forall ws target,
        In (ws, target) (handlers st) -> hasWsPrefix target = true).

End Wiring.

(** ** Handlers that let no exception out *)

Section Returning.

Context {H : Host}.


End Returning.

(** The snippets panel after a mount with nothing in storage, in the
    reference browser. *)
Definition shelf : @Panel browser :=
  mkPanel mounted DEFAULT_SNIPPETS EmptyString [] EmptyString.

(** [msg] typed into the message box of the panel. *)
Definition drafting (msg : string) (json : bool) (p : @Panel browser)
  : @Panel browser :=
  with_app (composing msg json (app p)) p.

(** * Properties *)

(** ** Trimming *)

Section Trimming.

Import Js.

Lemma trimStart_blank (s : string) :
  allWhiteSpace s = true -> trimStart s = EmptyString.
Proof.
  induction s as [|c s IH]; simpl; [reflexivity|].
  intros Hall. apply andb_true_iff in Hall as [Hc Hs].
  rewrite Hc. auto.
Qed.

Lemma trim_blank (s : string) :
  allWhiteSpace s = true -> trim s = EmptyString.
Proof.
  intros Hall. unfold trim. rewrite trimStart_blank by assumption. reflexivity.
Qed.

Lemma trimStart_fixed (s : string) (a : ascii) :
  first s = Some a -> isWhiteSpace a = false -> trimStart s = s.
Proof.
  destruct s as [|c s]; simpl; [discriminate|].
  intros [= ->] ->. reflexivity.
Qed.

Lemma trimEnd_fixed (s : string) (b : ascii) :
  last s = Some b -> isWhiteSpace b = false -> trimEnd s = s.
Proof.
  induction s as [|c s IH]; [discriminate|].
  destruct s as [|d s].
  - simpl. intros [= ->] ->. reflexivity.
  - intros Hlast Hb.
    change (last (String c (String d s))) with (last (String d s)) in Hlast.
    specialize (IH Hlast Hb).
    change (trimEnd (String c (String d s)))
      with (match trimEnd (String d s) with
            | EmptyString =>
                if isWhiteSpace c then EmptyString else String c EmptyString
            | String x t => String c (String x t)
            end).
    rewrite IH. reflexivity.
Qed.

Lemma last_cons (c : ascii) (s : string) : last (String c s) <> None.
Proof.
  revert c. induction s as [|d s IH]; intros c; simpl; [discriminate|].
  apply IH.
Qed.

(** A string with no white space at either end is its own trimming. *)
Lemma trim_fixed (s : string) : isTrimmed s = true -> trim s = s.
Proof.
  unfold isTrimmed, trim.
  destruct (first s) as [a|] eqn:Hfirst.
  - destruct (last s) as [b|] eqn:Hlast.
    + intros Hab. apply andb_true_iff in Hab as [Ha Hb].
      apply negb_true_iff in Ha, Hb.
      rewrite (trimStart_fixed s Hfirst Ha).
      exact (trimEnd_fixed s Hlast Hb).
    + destruct s as [|c s]; [discriminate|].
      exfalso. exact (last_cons c s Hlast).
  - destruct s; [reflexivity | discriminate].
Qed.

(** [trimStart] removes a run of white space and stops at the first code unit
    that is not. *)
Lemma trimStart_split (s : string) :
  exists l,
    allWhiteSpace l = true /\ s = l ++ trimStart s
    /\ match first (trimStart s) with
       | Some a => isWhiteSpace a = false
       | None => True
       end.
Proof.
  induction s as [|c s (l & Hl & Hs & Hf)].
  - exists EmptyString. repeat split.
  - simpl. destruct (isWhiteSpace c) eqn:Hc.
    + exists (String c l). simpl. rewrite Hc, Hl. repeat split; trivial.
      now rewrite <- Hs.
    + exists EmptyString. simpl. repeat split; trivial.
Qed.

Lemma trimEnd_split (s : string) :
  exists r,
    allWhiteSpace r = true /\ s = trimEnd s ++ r
    /\ match last (trimEnd s) with
       | Some b => isWhiteSpace b = false
       | None => True
       end.
Proof.
  induction s as [|c s (r & Hr & Hs & Hf)].
  - exists EmptyString. repeat split.
  - simpl. destruct (trimEnd s) as [|d t] eqn:Ht.
    + destruct (isWhiteSpace c) eqn:Hc.
      * exists (String c r). simpl. rewrite Hc, Hr. repeat split; trivial.
        simpl in Hs. now rewrite <- Hs.
      * exists r. simpl. repeat split; trivial. simpl in Hs. now rewrite <- Hs.
    + exists r. repeat split; trivial.
      simpl. simpl in Hs. now rewrite <- Hs.
Qed.

Lemma trimEnd_first (s : string) :
  trimEnd s <> EmptyString -> first (trimEnd s) = first s.
Proof.
  destruct s as [|c s]; simpl; [reflexivity|].
  destruct (trimEnd s); [|reflexivity].
  destruct (isWhiteSpace c); [congruence | reflexivity].
Qed.

(** [trim] is the trimming: white space is taken away at both ends, and at
    neither end is any left. *)
Lemma trim_spec (s : string) :
  exists l r,
    allWhiteSpace l = true /\ allWhiteSpace r = true
    /\ s = l ++ trim s ++ r /\ isTrimmed (trim s) = true.
Proof.
  destruct (trimStart_split s) as (l & Hl & Hs & Hf).
  destruct (trimEnd_split (trimStart s)) as (r & Hr & Ht & Hb).
  exists l, r. unfold trim. repeat split; trivial.
  - now rewrite <- Ht.
  - unfold isTrimmed.
    destruct (trimEnd (trimStart s)) as [|c t] eqn:He; [reflexivity|].
    assert (Hne : trimEnd (trimStart s) <> EmptyString) by (rewrite He; discriminate).
    pose proof (trimEnd_first (trimStart s) Hne) as Hfe.
    rewrite He in Hfe. rewrite <- Hfe in Hf. simpl in Hf.
    change (first (String c t)) with (Some c).
    destruct (last (String c t)) as [b|]; [|reflexivity].
    now rewrite Hf, Hb.
Qed.

End Trimming.

(** ** URL normalisation *)

Example normalizeUrl_host :
  normalizeUrl true "echo.websocket.events" = "wss://echo.websocket.events".
Proof. reflexivity. Qed.

Example normalizeUrl_full :
  normalizeUrl true "ws://localhost:8080/x" = "ws://localhost:8080/x".
Proof. reflexivity. Qed.

Example normalizeUrl_padded :
  normalizeUrl false "  host/path  " = "ws://host/path".
Proof. reflexivity. Qed.

Example normalizeUrl_blank : normalizeUrl false "   " = "ws://".
Proof. reflexivity. Qed.

Lemma protocolHint_truthy (secure : bool) :
  Js.truthy (protocolHint secure) = true.
Proof. destruct secure; reflexivity. Qed.

Lemma truthy_false (s : string) : Js.truthy s = false <-> s = EmptyString.
Proof. destruct s; simpl; split; congruence. Qed.

Lemma truthy_true (s : string) : Js.truthy s = true <-> s <> EmptyString.
Proof. destruct s; simpl; split; congruence. Qed.

Lemma append_truthy (a b : string) :
  Js.truthy a = true -> Js.truthy (a ++ b) = true.
Proof. destruct a; simpl; congruence. Qed.

(** The result of [normalizeUrl] is empty for the empty input only. *)
Lemma normalizeUrl_truthy (secure : bool) (u : string) :
  Js.truthy (normalizeUrl secure u) = Js.truthy u.
Proof.
  unfold normalizeUrl. destruct u as [|c u]; [reflexivity|].
  cbn [Js.truthy negb].
  destruct (Js.startsWith (Js.trim (String c u)) "ws://") eqn:Hws.
  - cbn [orb]. unfold Js.startsWith in Hws.
    destruct (Js.trim (String c u)); [discriminate | reflexivity].
  - cbn [orb].
    destruct (Js.startsWith (Js.trim (String c u)) "wss://") eqn:Hwss.
    + unfold Js.startsWith in Hwss.
      destruct (Js.trim (String c u)); [discriminate | reflexivity].
    + apply append_truthy, protocolHint_truthy.
Qed.

(** What [connect] passes to the constructor begins with ws:// or wss://. *)
Lemma normalizeUrl_prefixed (secure : bool) (u : string) :
  u <> EmptyString -> hasWsPrefix (normalizeUrl secure u) = true.
Proof.
  intros Hu. unfold normalizeUrl. apply truthy_true in Hu. rewrite Hu.
  cbn [negb]. fold (hasWsPrefix (Js.trim u)).
  destruct (hasWsPrefix (Js.trim u)) eqn:Hp; [exact Hp|].
  destruct (Js.trim u), secure; reflexivity.
Qed.

(** C1, as stated, fails: the empty input lacks the prefix and is returned
    empty, with no protocol in front; an input with the prefix and a trailing
    blank is returned without the blank, not verbatim. *)
Lemma normalization_rule_fails :
  ~ normalization_rule true EmptyString
  /\ ~ normalization_rule false "ws://host ".
Proof.
  split; intros [Hbare Hfull].
  - specialize (Hbare eq_refl). discriminate Hbare.
  - specialize (Hfull eq_refl). discriminate Hfull.
Qed.

(** C1, amended: [normalizeUrl] returns the empty string for the empty input
    and otherwise works on the trimmed input: without a ws:// or wss:// prefix
    the trimmed input gets the protocol matching the secure flag in front, with
    one it is returned as it is whatever the flag. So the rule of the design
    document holds for every non-empty input with no white space at either
    end. *)
Theorem normalizeUrl_trimmed (secure : bool) (u : string) :
  (u = EmptyString -> normalizeUrl secure u = EmptyString)
  /\ (u <> EmptyString -> hasWsPrefix (Js.trim u) = false ->
      normalizeUrl secure u = protocolHint secure ++ Js.trim u)
  /\ (hasWsPrefix (Js.trim u) = true ->
      forall flag, normalizeUrl flag u = Js.trim u)
  /\ (u <> EmptyString -> Js.isTrimmed u = true -> normalization_rule secure u).
Proof.
  assert (Hbare : u <> EmptyString -> hasWsPrefix (Js.trim u) = false ->
                  normalizeUrl secure u = protocolHint secure ++ Js.trim u).
  { intros Hu Hp. unfold normalizeUrl. apply truthy_true in Hu. rewrite Hu.
    cbn [negb]. unfold hasWsPrefix in Hp. rewrite Hp. reflexivity. }
  assert (Hfull : hasWsPrefix (Js.trim u) = true ->
                  forall flag, normalizeUrl flag u = Js.trim u).
  { intros Hp flag. unfold normalizeUrl.
    destruct u as [|c u]; [discriminate Hp|].
    cbn [Js.truthy negb]. unfold hasWsPrefix in Hp. rewrite Hp. reflexivity. }
  split; [intros ->; reflexivity|].
  split; [exact Hbare|].
  split; [exact Hfull|].
  intros Hu Ht. pose proof (trim_fixed u Ht) as Hfix.
  rewrite Hfix in Hbare, Hfull.
  split; intros Hp; auto.
Qed.

(** A non-empty input of white space only is normalised to the bare
    protocol. *)
Lemma normalizeUrl_blank_input (secure : bool) (u : string) :
  u <> EmptyString -> Js.allWhiteSpace u = true ->
  normalizeUrl secure u = protocolHint secure.
Proof.
  intros Hu Hall. unfold normalizeUrl.
  apply truthy_true in Hu. rewrite Hu. cbn [negb].
  rewrite (trim_blank u Hall). destruct secure; reflexivity.
Qed.

(** ** Running the handlers *)

Section Runs.

Context {H : Host} {J : JsonApi}.

(** [addLog] adds one entry of the content it is given, after the entries
    there are, and consults the browser for the identifier and the time. *)
Lemma addLog_run (type : Direction) (text : string) (st : Store) :
  exists e,
    addLog type text st
    = (Normal tt,
       with_log (log st ++ [e]) (with_world (stamped (world st)) st))
    /\ content e = (type, text).
Proof.
  unfold addLog, bind, randomUUID, ts, setLog, modify, stamped.
  destruct (crypto_randomUUID (world st)) as [id w1]. cbn.
  destruct (Date_toLocaleTimeString w1) as [time w2]. cbn.
  eexists. split; reflexivity.
Qed.

Lemma appended_nil (l : list LogEntry) : appended l l [].
Proof. exists []. split; [now rewrite app_nil_r | reflexivity]. Qed.

Lemma appended_one (l : list LogEntry) (e : LogEntry) (c : Direction * string) :
  content e = c -> appended l (l ++ [e]) [c].
Proof. intros <-. exists [e]. split; reflexivity. Qed.

Lemma appended_two (l : list LogEntry) (e1 e2 : LogEntry)
  (c1 c2 : Direction * string) :
  content e1 = c1 -> content e2 = c2 ->
  appended l (l ++ [e1] ++ [e2]) [c1; c2].
Proof. intros <- <-. exists [e1; e2]. split; reflexivity. Qed.

Lemma contents_one (l : list LogEntry) (c : Direction * string) :
  map content l = [c] -> exists e, l = [e] /\ content e = c.
Proof.
  destruct l as [|e [|e' l]]; try discriminate.
  intros [= Hc]. exists e. split; [reflexivity | exact Hc].
Qed.

Lemma contents_two (l : list LogEntry) (c1 c2 : Direction * string) :
  map content l = [c1; c2] ->
  exists e1 e2, l = [e1; e2] /\ content e1 = c1 /\ content e2 = c2.
Proof.
  destruct l as [|e1 [|e2 [|e3 l]]]; try discriminate.
  intros [= H1 H2]. exists e1, e2. repeat split; assumption.
Qed.

Lemma appended_length (old new : list LogEntry) (es : list (Direction * string)) :
  appended old new es -> length new = length old + length es.
Proof.
  intros (added & -> & <-). now rewrite length_app, length_map.
Qed.

Lemma appended_newEntries (st st' : Store) (es : list (Direction * string)) :
  appended (log st) (log st') es -> map content (newEntries st st') = es.
Proof.
  intros (added & Hlog & <-). unfold newEntries. rewrite Hlog.
  rewrite skipn_app, skipn_all, Nat.sub_diag. reflexivity.
Qed.

Lemma effects_newCalls (st st' : Store) (cs : list Call)
  (es : list (Direction * string)) :
  effects st st' cs es -> newCalls st st' = cs.
Proof.
  intros (Hcalls & _). unfold newCalls. rewrite Hcalls.
  rewrite skipn_app, skipn_all, Nat.sub_diag. reflexivity.
Qed.

End Runs.

(** Runs the next [addLog] of the goal. *)
Ltac log_step :=
  match goal with
  | |- context [addLog ?t ?x ?s] =>
      let e := fresh "e" in
      let Hrun := fresh "Hrun" in
      let Hcontent := fresh "Hcontent" in
      destruct (addLog_run t x s) as (e & Hrun & Hcontent);
      rewrite Hrun; clear Hrun
  end.

(** Unfolds the handler combinators, leaving [addLog] and the browser's
    answers in place. *)
Ltac handler_simpl :=
  cbn -[addLog String.append stamped normalizeUrl Js.trim Js.truthy].

Ltac unfold_handler :=
  unfold exec, result, perform, notify,
    connect, disconnect, sendMessage, sendCurrent, unmount,
    onopen, onmessage, onerror, onclose, prettyOrRaw, clearLog,
    saveCurrentUrl, selectSavedUrl, deleteSavedUrl,
    setStatus, setError, setUrl, setIsSecure, setUrlLabel, setMessage,
    setIsJson, setLog, setSavedUrls, newWebSocket, send, close,
    try_catch, try_finally, bind, ret, throw, get, modify, eval.

(** Closes an [effects] goal once the handler has run. *)
Ltac effects_done :=
  unfold effects; handler_simpl;
  repeat rewrite <- app_assoc;
  repeat split;
  first
    [ reflexivity
    | apply appended_nil
    | apply appended_one; assumption
    | apply appended_two; assumption ].

Section ConnectRuns.

Context {H : Host} {J : JsonApi}.

(** [connect] with nothing to connect to. *)
Lemma connect_no_url (st : Store) :
  normalizeUrl (isSecure st) (url st) = EmptyString ->
  let st' := exec connect st in
  effects st st'
    [Call_setError EmptyString;
     Call_setError "Please enter a valid WebSocket URL."]
    [(SYSTEM, "No URL provided.")]
  /\ wsRef st' = wsRef st /\ handlers st' = handlers st.
Proof.
  intros Hurl. unfold_handler. handler_simpl. rewrite Hurl.
  cbn [Js.truthy negb]. handler_simpl.
  log_step. handler_simpl.
  split; [effects_done | split; reflexivity].
Qed.

(** [connect] when the constructor returns a socket. *)
Lemma connect_opening (st : Store) (ws : WebSocket) (w : World) :
  let target := normalizeUrl (isSecure st) (url st) in
  Js.truthy target = true ->
  WebSocket_new target (stamped (world st)) = (Normal ws, w) ->
  let st' := exec connect st in
  effects st st'
    [Call_setError EmptyString; Call_setStatus Connecting; Call_WebSocket target]
    [(SYSTEM, "Connecting to " ++ target ++ " ...")]
  /\ wsRef st' = Some ws
  /\ handlers st' = (handlers st ++ [(ws, target)])%list
  /\ world st' = w.
Proof.
  intros target Htarget Hnew. subst target.
  unfold_handler. handler_simpl. rewrite Htarget. handler_simpl.
  log_step. handler_simpl. rewrite Hnew. handler_simpl.
  split; [effects_done | repeat split; reflexivity].
Qed.

(** [connect] when the constructor throws. *)
Lemma connect_failing (st : Store) (e : string) (w : World) :
  let target := normalizeUrl (isSecure st) (url st) in
  Js.truthy target = true ->
  WebSocket_new target (stamped (world st)) = (Throw e, w) ->
  let st' := exec connect st in
  effects st st'
    [Call_setError EmptyString; Call_setStatus Connecting; Call_WebSocket target;
     Call_setStatus Disconnected; Call_setError ("Failed to connect: " ++ e)]
    [(SYSTEM, "Connecting to " ++ target ++ " ...");
     (SYSTEM, "Failed to connect: " ++ e)]
  /\ wsRef st' = wsRef st /\ handlers st' = handlers st.
Proof.
  intros target Htarget Hnew. subst target.
  unfold_handler. handler_simpl. rewrite Htarget. handler_simpl.
  log_step. handler_simpl. rewrite Hnew. handler_simpl.
  log_step. handler_simpl.
  split; [effects_done | split; reflexivity].
Qed.

End ConnectRuns.

Section SessionRuns.

Context {H : Host} {J : JsonApi}.

Lemma prettyOrRaw_run (data : string) (st : Store) :
  prettyOrRaw data st = (Normal (pretty data), st).
Proof.
  unfold prettyOrRaw, pretty, try_catch, bind, eval, ret.
  destruct (JSON_parse data); reflexivity.
Qed.

(** [disconnect] with no socket in [wsRef]. *)
Lemma disconnect_idle (st : Store) :
  wsRef st = None ->
  effects st (exec disconnect st)
    [Call_setStatus Disconnected] [(SYSTEM, "Disconnected by user")].
Proof.
  intros Href. unfold_handler. handler_simpl. rewrite Href. handler_simpl.
  log_step. handler_simpl. effects_done.
Qed.

(** [disconnect] with a socket in [wsRef], whatever [close] answers. *)
Lemma disconnect_closing (st : Store) (ws : WebSocket) :
  wsRef st = Some ws ->
  effects st (exec disconnect st)
    [Call_close ws 1000 "User disconnect"; Call_setStatus Disconnected]
    [(SYSTEM, "Disconnected by user")].
Proof.
  intros Href. unfold_handler. handler_simpl. rewrite Href. handler_simpl.
  destruct (WebSocket_close ws 1000 "User disconnect" (world st)) as [[[]|e] w];
    handler_simpl; log_step; handler_simpl; effects_done.
Qed.

(** [sendMessage] outside a connection. *)
Lemma send_refused (st : Store) :
  status st <> Connected \/ wsRef st = None ->
  effects st (exec sendMessage st)
    [Call_setError EmptyString;
     Call_setError "Not connected to a WebSocket server."]
    [(SYSTEM, "Cannot send: not connected")].
Proof.
  intros Hout. unfold_handler. handler_simpl.
  assert (Hguard :
            negb (Status_eqb (status st) Connected)
            || match wsRef st with Some _ => false | None => true end = true).
  { destruct Hout as [Hs | Href].
    - destruct (status st); [reflexivity | reflexivity | congruence].
    - rewrite Href. apply orb_true_r. }
  rewrite Hguard. handler_simpl. log_step. handler_simpl. effects_done.
Qed.

(** [sendMessage] with a blank message: the error is cleared, nothing else. *)
Lemma send_blank (st : Store) (ws : WebSocket) :
  status st = Connected -> wsRef st = Some ws ->
  Js.truthy (Js.trim (message st)) = false ->
  effects st (exec sendMessage st) [Call_setError EmptyString] []
  /\ world (exec sendMessage st) = world st.
Proof.
  intros Hs Href Hblank. unfold_handler. handler_simpl.
  rewrite Hs, Href. handler_simpl. rewrite Hblank. handler_simpl.
  split; [effects_done | reflexivity].
Qed.

(** [sendMessage] in JSON mode with a message that does not parse. *)
Lemma send_invalid (st : Store) (ws : WebSocket) (e : string) :
  status st = Connected -> wsRef st = Some ws ->
  Js.truthy (Js.trim (message st)) = true ->
  prepared st = Throw e ->
  effects st (exec sendMessage st)
    [Call_setError EmptyString; Call_setError ("Invalid JSON: " ++ e)]
    [(SYSTEM, "Invalid JSON: " ++ e)].
Proof.
  intros Hs Href Hmsg Hprep. unfold prepared in Hprep.
  unfold_handler. handler_simpl.
  rewrite Hs, Href. handler_simpl. rewrite Hmsg. handler_simpl.
  destruct (isJson st); [|discriminate Hprep].
  handler_simpl.
  destruct (JSON_parse (message st)) as [v|e']; [discriminate Hprep|].
  injection Hprep as ->. handler_simpl.
  log_step. handler_simpl. effects_done.
Qed.

(** [sendMessage] when the transport takes the payload. *)
Lemma send_delivered (st : Store) (ws : WebSocket) (payload : string)
  (w : World) :
  status st = Connected -> wsRef st = Some ws ->
  Js.truthy (Js.trim (message st)) = true ->
  prepared st = Normal payload ->
  WebSocket_send ws payload (world st) = (Normal tt, w) ->
  effects st (exec sendMessage st)
    [Call_setError EmptyString; Call_send ws payload]
    [(SENT, display (isJson st) payload)].
Proof.
  intros Hs Href Hmsg Hprep Hsend. unfold prepared in Hprep. unfold display.
  unfold_handler. handler_simpl.
  rewrite Hs, Href. handler_simpl. rewrite Hmsg. handler_simpl.
  destruct (isJson st).
  - destruct (JSON_parse (message st)) as [v|e']; [|discriminate Hprep].
    injection Hprep as <-. handler_simpl. rewrite Href. handler_simpl.
    rewrite Hsend. handler_simpl.
    unfold pretty.
    destruct (JSON_parse (JSON_stringify v)); handler_simpl;
      log_step; handler_simpl; effects_done.
  - injection Hprep as <-. handler_simpl. rewrite Href. handler_simpl.
    rewrite Hsend. handler_simpl. log_step. handler_simpl. effects_done.
Qed.

(** [sendMessage] when the transport throws. *)
Lemma send_failed (st : Store) (ws : WebSocket) (payload e : string)
  (w : World) :
  status st = Connected -> wsRef st = Some ws ->
  Js.truthy (Js.trim (message st)) = true ->
  prepared st = Normal payload ->
  WebSocket_send ws payload (world st) = (Throw e, w) ->
  effects st (exec sendMessage st)
    [Call_setError EmptyString; Call_send ws payload;
     Call_setError ("Send failed: " ++ e)]
    [(SYSTEM, "Send failed: " ++ e)].
Proof.
  intros Hs Href Hmsg Hprep Hsend. unfold prepared in Hprep.
  unfold_handler. handler_simpl.
  rewrite Hs, Href. handler_simpl. rewrite Hmsg. handler_simpl.
  destruct (isJson st).
  - destruct (JSON_parse (message st)) as [v|e']; [|discriminate Hprep].
    injection Hprep as <-. handler_simpl. rewrite Href. handler_simpl.
    rewrite Hsend. handler_simpl. log_step. handler_simpl. effects_done.
  - injection Hprep as <-. handler_simpl. rewrite Href. handler_simpl.
    rewrite Hsend. handler_simpl. log_step. handler_simpl. effects_done.
Qed.

(** The four notifications. *)
Lemma onopen_run (target : string) (st : Store) :
  effects st (exec (onopen target) st)
    [Call_setStatus Connected] [(SYSTEM, "Connected to " ++ target)].
Proof. unfold_handler. handler_simpl. log_step. handler_simpl. effects_done. Qed.

Lemma onmessage_run (data : string) (st : Store) :
  effects st (exec (onmessage data) st) [] [(RECEIVED, pretty data)].
Proof.
  unfold exec, onmessage, bind. rewrite prettyOrRaw_run.
  log_step. handler_simpl. unfold effects. handler_simpl.
  rewrite app_nil_r. repeat split. now apply appended_one.
Qed.

Lemma onerror_run (evt_message : option string) (st : Store) :
  effects st (exec (onerror evt_message) st)
    [Call_setError "WebSocket error occurred. Check the console or server."]
    [(SYSTEM,
      "Error: " ++
      Js.or_else (match evt_message with Some m => m | None => EmptyString end)
                 "An error occurred")].
Proof. unfold_handler. handler_simpl. log_step. handler_simpl. effects_done. Qed.

Lemma onclose_run (code : nat) (reason : string) (st : Store) :
  effects st (exec (onclose code reason) st)
    [Call_setStatus Disconnected]
    [(SYSTEM,
      "Disconnected (" ++ Js.numberToString code ++ ") - " ++
      Js.or_else reason "Connection closed")].
Proof. unfold_handler. handler_simpl. log_step. handler_simpl. effects_done. Qed.

End SessionRuns.

(** ** The session controller *)

Section Controller.

Context {H : Host} {J : JsonApi}.

(** C6: [connect] with the empty string in the URL field leaves the status as
    it is (Disconnected stays Disconnected), constructs no transport and does
    not touch [wsRef], appends exactly one entry, a System entry, and sets an
    error message that is not empty. *)
Theorem connect_empty_url (st : Store) :
  url st = EmptyString ->
  let st' := exec connect st in
  status st' = status st
  /\ (status st = Disconnected -> status st' = Disconnected)
  /\ wsRef st' = wsRef st
  /\ existsb isConstruct (newCalls st st') = false
  /\ appended (log st) (log st') [(SYSTEM, "No URL provided.")]
  /\ length (log st') = S (length (log st))
  /\ error st' = "Please enter a valid WebSocket URL."
  /\ Js.truthy (error st') = true.
Proof.
  intros Hurl st'.
  assert (Hnorm : normalizeUrl (isSecure st) (url st) = EmptyString)
    by (rewrite Hurl; reflexivity).
  destruct (connect_no_url st Hnorm) as (Heff & Href & _).
  fold st' in Heff, Href.
  pose proof (effects_newCalls Heff) as Hcalls.
  destruct Heff as (_ & Hlog & Hstatus & Herror).
  cbn in Hstatus, Herror.
  repeat split; try assumption.
  - congruence.
  - rewrite Hcalls. reflexivity.
  - rewrite (appended_length Hlog). cbn. lia.
  - rewrite Herror. reflexivity.
Qed.

(** C10: with a non-empty URL field of white space only, the normalised URL
    is the bare protocol of the secure flag, which is not empty; [connect]
    does not report a missing URL: it logs that it connects to the bare
    protocol, sets the status to Connecting and calls the WebSocket
    constructor with the bare protocol. (Then the constructor returns a socket
    and the status stays Connecting, or it throws and the failure is
    reported.) *)
Theorem connect_blank_url (st : Store) :
  url st <> EmptyString -> Js.allWhiteSpace (url st) = true ->
  let bare := protocolHint (isSecure st) in
  let st' := exec connect st in
  normalizeUrl (isSecure st) (url st) = bare
  /\ Js.truthy bare = true
  /\ (exists rest,
        newCalls st st'
        = [Call_setError EmptyString; Call_setStatus Connecting;
           Call_WebSocket bare] ++ rest)%list
  /\ (exists first rest,
        newEntries st st' = first :: rest
        /\ content first = (SYSTEM, "Connecting to " ++ bare ++ " ..."))
  /\ existsb
       (fun c =>
          match c with
          | Call_setError m => String.eqb m "Please enter a valid WebSocket URL."
          | _ => false
          end)
       (newCalls st st') = false
  /\ ((exists ws, status st' = Connecting /\ wsRef st' = Some ws)
      \/ (exists e, status st' = Disconnected
                    /\ error st' = "Failed to connect: " ++ e)).
Proof.
  intros Hurl Hblank bare st'.
  pose proof (normalizeUrl_blank_input (isSecure st) Hurl Hblank) as Hnorm.
  fold bare in Hnorm.
  pose proof (protocolHint_truthy (isSecure st)) as Hbare. fold bare in Hbare.
  assert (Htarget : Js.truthy (normalizeUrl (isSecure st) (url st)) = true)
    by (rewrite Hnorm; exact Hbare).
  split; [exact Hnorm|]. split; [exact Hbare|].
  destruct (WebSocket_new (normalizeUrl (isSecure st) (url st))
              (stamped (world st))) as [[ws|e] w] eqn:Hnew.
  - destruct (connect_opening st Htarget Hnew) as (Heff & Href & _).
    fold st' in Heff, Href. rewrite Hnorm in Heff.
    pose proof (effects_newCalls Heff) as Hcalls.
    destruct Heff as (_ & Hlog & Hstatus & _).
    pose proof (appended_newEntries _ _ Hlog) as Hentries.
    rewrite Hcalls. split; [exists []; reflexivity|].
    split.
    + destruct (contents_one _ Hentries) as (first & -> & Hfirst).
      exists first, []. split; [reflexivity | exact Hfirst].
    + split; [reflexivity|]. left. exists ws. split; assumption.
  - destruct (connect_failing st Htarget Hnew) as (Heff & _).
    fold st' in Heff. rewrite Hnorm in Heff.
    pose proof (effects_newCalls Heff) as Hcalls.
    destruct Heff as (_ & Hlog & Hstatus & Herror).
    pose proof (appended_newEntries _ _ Hlog) as Hentries.
    rewrite Hcalls. split; [eexists; reflexivity|].
    split.
    + destruct (contents_two _ Hentries) as (first & second & -> & Hfirst & _).
      exists first, [second]. split; [reflexivity | exact Hfirst].
    + split; [reflexivity|]. right. exists e. split; assumption.
Qed.

(** C5: whatever the message and the JSON switch, [sendMessage] in a state
    whose status is not Connected makes no call to the transport's [send]:
    the calls it makes are the two [setError]. *)
Theorem send_outside_connection (st : Store) :
  status st <> Connected ->
  let st' := exec sendMessage st in
  existsb isSend (newCalls st st') = false
  /\ newCalls st st'
     = [Call_setError EmptyString;
        Call_setError "Not connected to a WebSocket server."]
  /\ existsb isSent (newEntries st st') = false.
Proof.
  intros Hstatus st'.
  pose proof (send_refused st (or_introl Hstatus)) as Heff. fold st' in Heff.
  pose proof (effects_newCalls Heff) as Hcalls.
  destruct Heff as (_ & Hlog & _).
  pose proof (appended_newEntries _ _ Hlog) as Hentries.
  rewrite Hcalls. repeat split.
  destruct (contents_one _ Hentries) as (e & -> & Hcontent).
  unfold isSent. cbn. injection Hcontent as -> _. reflexivity.
Qed.

End Controller.

(** ** Sending *)

Lemma existsb_mapped {A B : Type} (f : B -> bool) (g : A -> B) (l : list A) :
  existsb f (map g l) = existsb (fun x => f (g x)) l.
Proof. induction l as [|x l IH]; simpl; [reflexivity | now rewrite IH]. Qed.

Lemma Status_eqb_refl (s : Status) : Status_eqb s s = true.
Proof. destruct s; reflexivity. Qed.

Lemma Status_eqb_eq (a b : Status) : Status_eqb a b = true <-> a = b.
Proof. destruct a, b; simpl; split; congruence. Qed.

Example parse_a1 :
  Json.parse payload_a1 = Normal (Json.Object [("a", Json.Number 1)]).
Proof. reflexivity. Qed.

Example stringify_a1 :
  Json.stringify (Json.Object [("a", Json.Number 1)]) = payload_a1.
Proof. reflexivity. Qed.

Example indent_a1 :
  Json.stringifyIndent (Json.Object [("a", Json.Number 1)]) 2 = pretty_a1.
Proof. reflexivity. Qed.

Example parse_invalid :
  Json.parse "{invalid" = Throw "Unexpected token i in JSON".
Proof. reflexivity. Qed.

Example pretty_not_json : pretty (J := ecma) "not json" = "not json".
Proof. reflexivity. Qed.

Section Sending.

Context {H : Host}.

(** C3, amended: with status Connected, a socket in [wsRef], the JSON switch
    on and the message [{"a":1}], [sendMessage] makes exactly one call to the
    transport's [send], with the compact serialisation [{"a":1}] of the parsed
    message; and when that call returns, it appends exactly one entry: a Sent
    entry whose text is the serialisation indented by two,
    [{], [  "a": 1], [}] on three lines. (When the call throws, the one entry
    appended is the System entry that reports it.) *)
Theorem send_json_object (st : Store) (ws : WebSocket) :
  status st = Connected ->
  wsRef st = Some ws ->
  isJson st = true ->
  message st = payload_a1 ->
  let st' := exec (sendMessage (J := ecma)) st in
  filter isSend (newCalls st st') = [Call_send ws payload_a1]
  /\ (exists v,
        JSON_parse (message st) = Normal v
        /\ JSON_stringify v = payload_a1
        /\ JSON_stringify_indent v 2 = pretty_a1)
  /\ (forall w,
        WebSocket_send ws payload_a1 (world st) = (Normal tt, w) ->
        newCalls st st' = [Call_setError EmptyString; Call_send ws payload_a1]
        /\ appended (log st) (log st') [(SENT, pretty_a1)]
        /\ length (log st') = S (length (log st))
        /\ error st' = EmptyString
        /\ status st' = Connected)
  /\ (forall e w,
        WebSocket_send ws payload_a1 (world st) = (Throw e, w) ->
        appended (log st) (log st') [(SYSTEM, "Send failed: " ++ e)]
        /\ error st' = "Send failed: " ++ e).
Proof.
  intros Hstatus Href Hjson Hmsg st'.
  assert (Hprep : prepared (J := ecma) st = Normal payload_a1).
  { unfold prepared. rewrite Hjson, Hmsg. reflexivity. }
  assert (Hfilled : Js.truthy (Js.trim (message st)) = true)
    by (rewrite Hmsg; reflexivity).
  assert (Htaken :
            forall w,
              WebSocket_send ws payload_a1 (world st) = (Normal tt, w) ->
              effects st st'
                [Call_setError EmptyString; Call_send ws payload_a1]
                [(SENT, pretty_a1)]).
  { intros w Hsend.
    pose proof (send_delivered (J := ecma) st Hstatus Href Hfilled Hprep Hsend)
      as Heff.
    rewrite Hjson in Heff. exact Heff. }
  assert (Hthrown :
            forall e w,
              WebSocket_send ws payload_a1 (world st) = (Throw e, w) ->
              effects st st'
                [Call_setError EmptyString; Call_send ws payload_a1;
                 Call_setError ("Send failed: " ++ e)]
                [(SYSTEM, "Send failed: " ++ e)]).
  { intros e w Hsend.
    exact (send_failed (J := ecma) st Hstatus Href Hfilled Hprep Hsend). }
  split; [|split; [|split]].
  - destruct (WebSocket_send ws payload_a1 (world st)) as [[[]|e] w] eqn:Hsend.
    + now rewrite (effects_newCalls (Htaken w eq_refl)).
    + now rewrite (effects_newCalls (Hthrown e w eq_refl)).
  - exists (Json.Object [("a", Json.Number 1)]). rewrite Hmsg.
    repeat split; reflexivity.
  - intros w Hsend. specialize (Htaken w Hsend).
    pose proof (effects_newCalls Htaken) as Hcalls.
    destruct Htaken as (_ & Hlog & Hst & Herr). cbn in Hst, Herr.
    repeat split; try assumption.
    + rewrite (appended_length Hlog). cbn. lia.
    + congruence.
  - intros e w Hsend. specialize (Hthrown e w Hsend).
    destruct Hthrown as (_ & Hlog & _ & Herr). cbn in Herr.
    split; assumption.
Qed.

End Sending.

Section Reporting.

Context {H : Host} {J : JsonApi}.

(** C4, amended: in JSON mode with a message that does not parse,
    [sendMessage] never calls the transport's [send] and never appends a Sent
    entry, whatever the state; and when the status is Connected, a transport
    is held and the message is not blank, it sets the error to "Invalid JSON: "
    followed by the parser's message, which is not empty, and appends one
    System entry of the same text. *)
Theorem send_unparsable (st : Store) (e : string) :
  isJson st = true ->
  JSON_parse (message st) = Throw e ->
  let st' := exec sendMessage st in
  existsb isSend (newCalls st st') = false
  /\ existsb isSent (newEntries st st') = false
  /\ (status st = Connected -> wsRef st <> None ->
      Js.truthy (Js.trim (message st)) = true ->
      error st' = "Invalid JSON: " ++ e
      /\ Js.truthy (error st') = true
      /\ map content (newEntries st st') = [(SYSTEM, "Invalid JSON: " ++ e)]).
Proof.
  intros Hjson Hparse st'.
  assert (Hprep : prepared st = Throw e).
  { unfold prepared. rewrite Hjson, Hparse. reflexivity. }
  assert (Hreport :
            status st = Connected -> wsRef st <> None ->
            Js.truthy (Js.trim (message st)) = true ->
            effects st st'
              [Call_setError EmptyString; Call_setError ("Invalid JSON: " ++ e)]
              [(SYSTEM, "Invalid JSON: " ++ e)]).
  { intros Hs Href Hfilled. destruct (wsRef st) as [ws|] eqn:Hws; [|congruence].
    exact (send_invalid st Hs Hws Hfilled Hprep). }
  assert (Hquiet :
            exists cs es,
              effects st st' cs es
              /\ existsb isSend cs = false
              /\ existsb (fun c => match fst c with SENT => true | _ => false end)
                   es = false).
  { destruct (Status_eqb (status st) Connected) eqn:Hs.
    - apply Status_eqb_eq in Hs.
      destruct (wsRef st) as [ws|] eqn:Hws.
      + destruct (Js.truthy (Js.trim (message st))) eqn:Hfilled.
        * do 2 eexists. split; [apply Hreport; congruence|]. split; reflexivity.
        * do 2 eexists.
          split; [exact (proj1 (send_blank st Hs Hws Hfilled))|].
          split; reflexivity.
      + do 2 eexists. split; [exact (send_refused st (or_intror Hws))|].
        split; reflexivity.
    - do 2 eexists. split.
      + apply send_refused. left. intros Hc. rewrite Hc in Hs. discriminate Hs.
      + split; reflexivity. }
  split; [|split].
  - destruct Hquiet as (cs & es & Heff & Hcs & _).
    now rewrite (effects_newCalls Heff).
  - destruct Hquiet as (cs & es & Heff & _ & Hes).
    destruct Heff as (_ & Hlog & _).
    rewrite <- (appended_newEntries _ _ Hlog) in Hes.
    rewrite existsb_mapped in Hes. exact Hes.
  - intros Hs Href Hfilled. specialize (Hreport Hs Href Hfilled).
    destruct Hreport as (_ & Hlog & _ & Herr). cbn in Herr.
    split; [exact Herr|]. split; [rewrite Herr; reflexivity|].
    exact (appended_newEntries _ _ Hlog).
Qed.

End Reporting.

(** ** One entry per event *)

Section Events.

Context {H : Host} {J : JsonApi}.

Lemma effects_entries (st st' : Store) (cs : list Call)
  (es : list (Direction * string)) :
  effects st st' cs es ->
  exists added,
    log st' = (log st ++ added)%list /\ length added = length es.
Proof.
  intros (_ & (added & Hlog & Hcontents) & _).
  exists added. split; [exact Hlog|]. now rewrite <- Hcontents, length_map.
Qed.

(** A blank message is no event: the status stays and no error is reported. *)
Lemma send_blank_uneventful (st : Store) (ws : WebSocket) :
  status st = Connected -> wsRef st = Some ws ->
  Js.truthy (Js.trim (message st)) = false ->
  eventful Send st = false.
Proof.
  intros Hs Href Hblank.
  destruct (send_blank st Hs Href Hblank) as (Heff & _).
  unfold eventful. cbn [perform].
  rewrite (effects_newCalls Heff).
  destruct Heff as (_ & _ & Hstatus & _). cbn in Hstatus.
  rewrite Hstatus, Status_eqb_refl. reflexivity.
Qed.

Lemma connect_entries (st : Store) :
  exists added,
    log (exec connect st) = (log st ++ added)%list
    /\ length added = entriesDue Connect st.
Proof.
  unfold entriesDue, constructorThrows.
  destruct (Js.truthy (normalizeUrl (isSecure st) (url st))) eqn:Htarget.
  - destruct (WebSocket_new (normalizeUrl (isSecure st) (url st))
                (stamped (world st))) as [[ws|e] w] eqn:Hnew.
    + exact (effects_entries (proj1 (connect_opening st Htarget Hnew))).
    + exact (effects_entries (proj1 (connect_failing st Htarget Hnew))).
  - apply truthy_false in Htarget.
    exact (effects_entries (proj1 (connect_no_url st Htarget))).
Qed.

Lemma disconnect_entries (st : Store) :
  exists added,
    log (exec disconnect st) = (log st ++ added)%list /\ length added = 1.
Proof.
  destruct (wsRef st) as [ws|] eqn:Href.
  - exact (effects_entries (disconnect_closing st Href)).
  - exact (effects_entries (disconnect_idle st Href)).
Qed.

(** [sendMessage] appends one entry, or none when the message is blank,
    which is no event. *)
Lemma send_appends (st : Store) :
  exists added,
    log (exec sendMessage st) = (log st ++ added)%list
    /\ length added <= 1
    /\ (eventful Send st = true -> length added = 1).
Proof.
  assert (Hone :
            forall cs c,
              effects st (exec sendMessage st) cs [c] ->
              exists added,
                log (exec sendMessage st) = (log st ++ added)%list
                /\ length added <= 1
                /\ (eventful Send st = true -> length added = 1)).
  { intros cs c Heff. destruct (effects_entries Heff) as (added & Hlog & Hlen).
    exists added. cbn in Hlen. repeat split; [exact Hlog | lia | auto]. }
  destruct (Status_eqb (status st) Connected) eqn:Hs.
  - apply Status_eqb_eq in Hs.
    destruct (wsRef st) as [ws|] eqn:Href.
    + destruct (Js.truthy (Js.trim (message st))) eqn:Hfilled.
      * destruct (prepared st) as [payload|e] eqn:Hprep.
        -- destruct (WebSocket_send ws payload (world st)) as [[[]|e] w]
             eqn:Hsend.
           ++ exact (Hone _ _ (send_delivered st Hs Href Hfilled Hprep Hsend)).
           ++ exact (Hone _ _ (send_failed st Hs Href Hfilled Hprep Hsend)).
        -- exact (Hone _ _ (send_invalid st Hs Href Hfilled Hprep)).
      * destruct (effects_entries (proj1 (send_blank st Hs Href Hfilled)))
          as (added & Hlog & Hlen).
        exists added. cbn in Hlen. repeat split; [exact Hlog | lia |].
        rewrite (send_blank_uneventful st Hs Href Hfilled). discriminate.
    + exact (Hone _ _ (send_refused st (or_intror Href))).
  - apply (Hone [Call_setError EmptyString;
                 Call_setError "Not connected to a WebSocket server."]
             (SYSTEM, "Cannot send: not connected")).
    apply send_refused. left. intros Hc. rewrite Hc in Hs. discriminate Hs.
Qed.

Lemma send_entries (st : Store) :
  eventful Send st = true ->
  exists added,
    log (exec sendMessage st) = (log st ++ added)%list /\ length added = 1.
Proof.
  intros Hevent. destruct (send_appends st) as (added & Hlog & _ & Hlen).
  exists added. auto.
Qed.

Lemma notify_entries (target : string) (n : Notification) (st : Store) :
  exists added,
    log (exec (notify target n) st) = (log st ++ added)%list
    /\ length added = 1.
Proof.
  destruct n as [|data|evt_message|code reason]; cbn [notify].
  - exact (effects_entries (onopen_run target st)).
  - exact (effects_entries (onmessage_run data st)).
  - exact (effects_entries (onerror_run evt_message st)).
  - exact (effects_entries (onclose_run code reason st)).
Qed.

(** No operation touches an entry that is in the log: the log it leaves is
    the log it found followed by what it appended, two entries at most. *)
Lemma perform_appends (op : Operation) (st : Store) :
  exists added,
    log (exec (perform op) st) = (log st ++ added)%list /\ length added <= 2.
Proof.
  destruct op as [| | |target n]; cbn [perform].
  - destruct (connect_entries st) as (added & Hlog & Hlen).
    exists added. split; [exact Hlog|]. rewrite Hlen. cbn.
    destruct (constructorThrows st); lia.
  - destruct (disconnect_entries st) as (added & Hlog & Hlen).
    exists added. split; [exact Hlog | lia].
  - destruct (send_appends st) as (added & Hlog & Hlen & _).
    exists added. split; [exact Hlog | lia].
  - destruct (notify_entries target n st) as (added & Hlog & Hlen).
    exists added. split; [exact Hlog | lia].
Qed.

(** C2, amended: an invocation of [connect], [disconnect], [sendMessage] or
    of a handler of the transport that changes the status or reports an error
    appends at least one entry, after the entries there are: exactly one,
    except that [connect] appends exactly two (that it connects, and that it
    failed) when the WebSocket constructor throws. *)
Theorem eventful_entries (op : Operation) (st : Store) :
  eventful op st = true ->
  exists added,
    log (exec (perform op) st) = (log st ++ added)%list
    /\ length added = entriesDue op st
    /\ 1 <= entriesDue op st <= 2
    /\ (entriesDue op st = 2 <-> op = Connect /\ constructorThrows st = true).
Proof.
  intros Hevent.
  assert (Hrange : 1 <= entriesDue op st <= 2).
  { destruct op; cbn; try lia. destruct (constructorThrows st); lia. }
  assert (Htwo : entriesDue op st = 2
                 <-> op = Connect /\ constructorThrows st = true).
  { destruct op; cbn.
    - destruct (constructorThrows st); split; auto; try discriminate.
      intros [_ Hthrows]. discriminate Hthrows.
    - split; [discriminate | intros [? _]; discriminate].
    - split; [discriminate | intros [? _]; discriminate].
    - split; [discriminate | intros [? _]; discriminate]. }
  destruct op as [| | |target n]; cbn [perform].
  - destruct (connect_entries st) as (added & Hlog & Hlen).
    exists added. auto.
  - destruct (disconnect_entries st) as (added & Hlog & Hlen).
    exists added. auto.
  - destruct (send_entries st Hevent) as (added & Hlog & Hlen).
    exists added. auto.
  - destruct (notify_entries target n st) as (added & Hlog & Hlen).
    exists added. auto.
Qed.

End Events.

(** ** The log model *)

Section LogModel.

Context {H : Host}.

Lemma addLogs_run (es : list (Direction * string)) (st : Store) :
  result (addLogs es) st = Normal tt
  /\ appended (log st) (log (exec (addLogs es) st)) es.
Proof.
  revert st. induction es as [|[type text] es IH]; intros st.
  - split; [reflexivity | apply appended_nil].
  - unfold result, exec. cbn [addLogs]. unfold bind.
    destruct (addLog_run type text st) as (e & Hrun & Hcontent).
    rewrite Hrun.
    destruct (IH (with_log (log st ++ [e])
                    (with_world (stamped (world st)) st)))
      as (Hres & added & Hlog & Hcontents).
    split; [exact Hres|].
    exists (e :: added). unfold exec in Hlog. rewrite Hlog. cbn [log with_log].
    split; [now rewrite <- app_assoc | cbn; now rewrite Hcontent, Hcontents].
Qed.

(** C7: after any number of [addLog] calls the snapshot is the log there was
    followed by one entry per call, with the direction and text of the call,
    in the order of the calls; from an empty log these are all its entries.
    Entries once in the log stay as they are: appending more leaves the
    snapshot taken before as a prefix. *)
Theorem snapshot_after_appends (es : list (Direction * string)) (st : Store) :
  let st' := exec (addLogs es) st in
  result (addLogs es) st = Normal tt
  /\ appended (snapshot st) (snapshot st') es
  /\ length (snapshot st') = length (snapshot st) + length es
  /\ (snapshot st = [] -> map content (snapshot st') = es)
  /\ (forall more,
        appended (snapshot st') (snapshot (exec (addLogs more) st')) more).
Proof.
  intros st'. destruct (addLogs_run es st) as (Hres & Hlog).
  fold st' in Hlog. unfold snapshot.
  repeat split; try assumption.
  - exact (appended_length Hlog).
  - intros Hempty. destruct Hlog as (added & -> & <-). now rewrite Hempty.
  - intros more. exact (proj2 (addLogs_run more st')).
Qed.

(** C8: whatever the log holds, after [clearLog] the snapshot has exactly one
    entry, the System entry "Log cleared". *)
Theorem clearLog_snapshot (st : Store) :
  let st' := exec clearLog st in
  length (snapshot st') = 1
  /\ map content (snapshot st') = [(SYSTEM, "Log cleared")].
Proof.
  unfold snapshot. unfold_handler. handler_simpl.
  log_step. handler_simpl. rewrite Hcontent. split; reflexivity.
Qed.

End LogModel.

(** ** Saved connections *)

Section SavedConnections.

Context {H : Host}.

Lemma sameSaved_spec (entry x : SavedUrl) :
  sameSaved entry x = true
  <-> saved_url x = saved_url entry
      /\ saved_secure x = saved_secure entry
      /\ saved_label x = saved_label entry.
Proof.
  unfold sameSaved. rewrite !andb_true_iff, !String.eqb_eq, Bool.eqb_true_iff.
  tauto.
Qed.

(** The test of the updater is the test for a saved entry of the same URL,
    flag and label. *)
Lemma existsb_sameSaved (st : Store) (id : string) :
  existsb
    (sameSaved (mkSavedUrl id (currentLabel st) (currentUrl st) (isSecure st)))
    (savedUrls st) = true
  <-> alreadySaved st.
Proof.
  rewrite existsb_exists. unfold alreadySaved.
  split; intros (x & Hin & Hsame); exists x; (split; [exact Hin|]).
  - apply sameSaved_spec in Hsame. cbn in Hsame. tauto.
  - apply sameSaved_spec. cbn. tauto.
Qed.

Lemma NoDup_snoc {A : Type} (l : list A) (x : A) :
  NoDup l -> ~ In x l -> NoDup (l ++ [x]).
Proof.
  induction l as [|y l IH]; intros Hl Hx; cbn.
  - constructor; [intros [] | constructor].
  - inversion Hl as [|? ? Hy Hl']; subst. constructor.
    + rewrite in_app_iff. cbn. intros [Hin | [-> | []]]; [auto|].
      apply Hx. now left.
    + apply IH; [exact Hl'|]. intros Hin. apply Hx. now right.
Qed.

(** [saveCurrentUrl] with a URL field that is not blank. *)
Lemma saveCurrentUrl_run (st : Store) :
  Js.truthy (currentUrl st) = true ->
  let st' := exec saveCurrentUrl st in
  let entry :=
    mkSavedUrl (fst (crypto_randomUUID (world st))) (currentLabel st)
      (currentUrl st) (isSecure st) in
  savedUrls st'
  = (if existsb (sameSaved entry) (savedUrls st)
     then savedUrls st
     else (savedUrls st ++ [entry])%list)
  /\ urlLabel st' = EmptyString
  /\ world st' = snd (crypto_randomUUID (world st)).
Proof.
  intros Hurl. unfold currentUrl in Hurl.
  unfold exec, saveCurrentUrl, bind, get, ret, randomUUID, setSavedUrls,
    setUrlLabel, modify.
  cbn -[Js.trim Js.truthy Js.or_else]. rewrite Hurl. cbn [negb].
  destruct (crypto_randomUUID (world st)) as [id w].
  cbn -[Js.trim Js.truthy Js.or_else sameSaved].
  repeat split.
Qed.

(** [saveCurrentUrl] with a blank URL field. *)
Lemma saveCurrentUrl_blank (st : Store) :
  Js.truthy (currentUrl st) = false -> exec saveCurrentUrl st = st.
Proof.
  intros Hblank. unfold exec, saveCurrentUrl, bind, get, ret.
  unfold currentUrl in Hblank. cbn -[Js.trim Js.truthy]. rewrite Hblank.
  reflexivity.
Qed.

(** C9, amended: [saveCurrentUrl] does nothing when the URL field is blank.
    Otherwise the entry to save has the trimmed URL, the secure flag and, as
    its label, the trimmed label field or else the trimmed URL; when a saved
    entry has the same URL, flag and label the collection stays as it is;
    when none has, exactly one entry is appended, under the identifier that
    [crypto.randomUUID()] returned, so the identifiers stay pairwise distinct
    as long as the browser hands out one that no saved entry has. *)
Theorem saveCurrentUrl_saves (st : Store) :
  let st' := exec saveCurrentUrl st in
  (Js.truthy (currentUrl st) = false -> st' = st)
  /\ (Js.truthy (currentUrl st) = true ->
      (alreadySaved st -> savedUrls st' = savedUrls st)
      /\ (~ alreadySaved st ->
          exists entry,
            savedUrls st' = (savedUrls st ++ [entry])%list
            /\ saved_id entry = fst (crypto_randomUUID (world st))
            /\ saved_url entry = currentUrl st
            /\ saved_secure entry = isSecure st
            /\ saved_label entry = currentLabel st
            /\ (~ In (saved_id entry) (map saved_id (savedUrls st)) ->
                NoDup (map saved_id (savedUrls st)) ->
                NoDup (map saved_id (savedUrls st'))))).
Proof.
  intros st'. split.
  - exact (saveCurrentUrl_blank st).
  - intros Hurl. destruct (saveCurrentUrl_run st Hurl) as (Hsaved & _).
    fold st' in Hsaved.
    pose proof (existsb_sameSaved st (fst (crypto_randomUUID (world st))))
      as Htest.
    split.
    + intros Hdup. apply Htest in Hdup. now rewrite Hdup in Hsaved.
    + intros Hnew.
      destruct (existsb _ (savedUrls st)) eqn:Hex.
      * exfalso. apply Hnew, Htest. reflexivity.
      * eexists. split; [exact Hsaved|]. cbn. repeat split.
        intros Hfresh Hdistinct. rewrite Hsaved, map_app. cbn.
        now apply NoDup_snoc.
Qed.

End SavedConnections.

Lemma numberToString_inj (a b : nat) :
  Js.numberToString a = Js.numberToString b -> a = b.
Proof.
  unfold Js.numberToString. intros Heq.
  apply (f_equal NilEmpty.uint_of_string) in Heq.
  rewrite !NilEmpty.usu in Heq. injection Heq as Heq.
  apply (f_equal Nat.of_uint) in Heq.
  now rewrite !DecimalNat.Unsigned.of_to in Heq.
Qed.

Lemma issued_later (w w' : Browser.State) (id : string) :
  Browser.uuids w <= Browser.uuids w' -> issued w id -> issued w' id.
Proof. intros Hle (k & Hk & ->). exists k. split; [lia | reflexivity]. Qed.

Lemma mounted_identified : savedIdentified mounted.
Proof. split; constructor. Qed.

(** In the reference browser [saveCurrentUrl] keeps the saved entries
    identified: the identifier it draws is one no saved entry has. *)
Lemma saveCurrentUrl_identified (st : @Store browser) :
  savedIdentified st -> savedIdentified (exec saveCurrentUrl st).
Proof.
  intros (Hissued & Hdistinct). unfold savedIdentified.
  destruct (Js.truthy (currentUrl st)) eqn:Hurl.
  - destruct (saveCurrentUrl_run st Hurl) as (Hsaved & _ & Hworld).
    cbv zeta in Hsaved.
    assert (Hlater : Forall (issued (world (exec saveCurrentUrl st)))
                       (map saved_id (savedUrls st))).
    { eapply Forall_impl; [|exact Hissued].
      intros id. apply issued_later. rewrite Hworld. cbn. lia. }
    destruct (existsb _ (savedUrls st)).
    + rewrite Hsaved. split; assumption.
    + rewrite Hsaved, map_app. cbn [map saved_id].
      split.
      * apply Forall_app. split; [exact Hlater|].
        constructor; [|constructor].
        exists (Browser.uuids (world st)). rewrite Hworld. cbn.
        split; [lia | reflexivity].
      * apply NoDup_snoc; [exact Hdistinct|].
        intros Hin. rewrite Forall_forall in Hissued.
        destruct (Hissued _ Hin) as (k & Hk & Heq).
        cbn in Heq. injection Heq as Heq.
        apply numberToString_inj in Heq. lia.
  - rewrite (saveCurrentUrl_blank st Hurl). split; assumption.
Qed.

(** ** Invariants of the mounted component *)

Section Frames.

Context {H : Host} {J : JsonApi}.

Variables (B : Type) (f : Store -> B).

Lemma keeps_ret {A : Type} (a : A) : keeps f (ret a).
Proof. intros st. reflexivity. Qed.

Lemma keeps_throw {A : Type} (e : string) : keeps f (throw (A := A) e).
Proof. intros st. reflexivity. Qed.

Lemma keeps_get {A : Type} (g : Store -> A) : keeps f (get g).
Proof. intros st. reflexivity. Qed.

Lemma keeps_eval {A : Type} (c : Completion A) : keeps f (eval c).
Proof. intros st. reflexivity. Qed.

Lemma keeps_modify (g : Store -> Store) :
  (forall st, f (g st) = f st) -> keeps f (modify g).
Proof. intros Hg st. apply Hg. Qed.

Lemma keeps_bind {A C : Type} (m : M A) (k : A -> M C) :
  keeps f m -> (forall a, keeps f (k a)) -> keeps f (bind m k).
Proof.
  intros Hm Hk st. unfold bind. specialize (Hm st).
  destruct (m st) as [[a|e] st1]; cbn in *; [|exact Hm].
  now rewrite Hk.
Qed.

Lemma keeps_try_catch {A : Type} (m : M A) (h : string -> M A) :
  keeps f m -> (forall e, keeps f (h e)) -> keeps f (try_catch m h).
Proof.
  intros Hm Hh st. unfold try_catch. specialize (Hm st).
  destruct (m st) as [[a|e] st1]; cbn in *; [exact Hm|].
  now rewrite Hh.
Qed.

Lemma keeps_try_finally {A : Type} (m : M A) (g : M unit) :
  keeps f m -> keeps f g -> keeps f (try_finally m g).
Proof.
  intros Hm Hg st. unfold try_finally. specialize (Hm st).
  destruct (m st) as [r st1]. specialize (Hg st1).
  destruct (g st1) as [[u|e] st2]; cbn in *; congruence.
Qed.

End Frames.

Section Invariants.

Context {H : Host} {J : JsonApi}.

Lemma setStatus_held (s : Status) : keeps held (setStatus s).
Proof. intros st. reflexivity. Qed.

Lemma setError_held (e : string) : keeps held (setError e).
Proof. intros st. reflexivity. Qed.

Lemma setError_status (e : string) : keeps status (setError e).
Proof. intros st. reflexivity. Qed.

Lemma addLog_keeps {B : Type} (f : Store -> B) (type : Direction)
  (text : string) :
  (forall l w st, f (with_log l (with_world w st)) = f st) ->
  keeps f (addLog type text).
Proof.
  intros Hf st. destruct (addLog_run type text st) as (e & Hrun & _).
  rewrite Hrun. apply Hf.
Qed.

Lemma addLog_held (type : Direction) (text : string) :
  keeps held (addLog type text).
Proof. apply addLog_keeps. reflexivity. Qed.

Lemma addLog_status (type : Direction) (text : string) :
  keeps status (addLog type text).
Proof. apply addLog_keeps. reflexivity. Qed.

Lemma send_keeps {B : Type} (f : Store -> B) (ws : WebSocket) (data : string) :
  (forall c w st, f (with_world w (called c st)) = f st) ->
  keeps f (send ws data).
Proof.
  intros Hf st. unfold send.
  destruct (WebSocket_send ws data (world st)) as [r w]. apply Hf.
Qed.

Lemma close_keeps {B : Type} (f : Store -> B) (ws : WebSocket) (code : nat)
  (reason : string) :
  (forall c w st, f (with_world w (called c st)) = f st) ->
  keeps f (close ws code reason).
Proof.
  intros Hf st. unfold close.
  destruct (WebSocket_close ws code reason (world st)) as [r w]. apply Hf.
Qed.

Lemma prettyOrRaw_keeps {B : Type} (f : Store -> B) (data : string) :
  keeps f (prettyOrRaw data).
Proof. intros st. now rewrite prettyOrRaw_run. Qed.

End Invariants.

(** Proves that a handler keeps an observation, combinator by combinator. *)
Ltac keeps_step :=
  first
    [ apply keeps_ret | apply keeps_throw | apply keeps_get | apply keeps_eval
    | apply prettyOrRaw_keeps
    | apply setStatus_held | apply setError_held | apply setError_status
    | apply addLog_held | apply addLog_status
    | apply send_keeps; reflexivity | apply close_keeps; reflexivity
    | apply keeps_bind; [|intros ?]
    | apply keeps_try_catch; [|intros ?]
    | apply keeps_try_finally
    | match goal with
      | |- keeps _ (if ?b then _ else _) => destruct b
      | |- keeps _ (match ?x with _ => _ end) => destruct x
      end ].

Ltac keeps_auto := repeat keeps_step.

Section Reachability.

Context {H : Host} {J : JsonApi}.

Lemma disconnect_held : keeps held disconnect.
Proof. unfold disconnect. keeps_auto. Qed.

Lemma sendMessage_held : keeps held sendMessage.
Proof. unfold sendMessage, sendCurrent. keeps_auto. Qed.

Lemma sendMessage_status : keeps status sendMessage.
Proof. unfold sendMessage, sendCurrent. keeps_auto. Qed.

Lemma notify_held (target : string) (n : Notification) :
  keeps held (notify target n).
Proof.
  destruct n; unfold notify, onopen, onmessage, onerror, onclose; keeps_auto.
Qed.

Lemma clearLog_held : keeps held clearLog.
Proof.
  unfold clearLog. apply keeps_bind; [|intros ?; apply addLog_held].
  intros st. reflexivity.
Qed.

Lemma clearLog_status : keeps status clearLog.
Proof.
  unfold clearLog. apply keeps_bind; [|intros ?; apply addLog_status].
  intros st. reflexivity.
Qed.

Lemma saveCurrentUrl_kept (st : Store) :
  held (exec saveCurrentUrl st) = held st
  /\ status (exec saveCurrentUrl st) = status st.
Proof.
  unfold exec, saveCurrentUrl, bind, get, ret, randomUUID, setSavedUrls,
    setUrlLabel, modify.
  cbn -[Js.trim Js.truthy Js.or_else sameSaved].
  destruct (Js.truthy (Js.trim (url st))); cbn [negb]; [|split; reflexivity].
  destruct (crypto_randomUUID (world st)) as [id w].
  split; reflexivity.
Qed.

Lemma held_settled (st st' : Store) :
  held st' = held st -> (status st <> Connected -> status st' <> Connected) ->
  Settled st -> Settled st'.
Proof.
  unfold held, Settled. intros [= Href Hhandlers] Hstatus (Hnone & Hsome).
  rewrite Href, Hhandlers. split; auto.
Qed.

Lemma connect_settled (st : Store) : Settled st -> Settled (exec connect st).
Proof.
  intros Hst.
  destruct (Js.truthy (normalizeUrl (isSecure st) (url st))) eqn:Htarget.
  - destruct (WebSocket_new (normalizeUrl (isSecure st) (url st))
                (stamped (world st))) as [[ws|e] w] eqn:Hnew.
    + destruct (connect_opening st Htarget Hnew) as (_ & Href & Hhandlers & _).
      split.
      * rewrite Hhandlers. intros Hnil. now apply app_eq_nil in Hnil as [_ Hnil].
      * intros _. now rewrite Href.
    + destruct (connect_failing st Htarget Hnew)
        as ((_ & _ & Hstatus & _) & Href & Hhandlers).
      apply held_settled with (st := st); [unfold held; congruence | | exact Hst].
      intros _. rewrite Hstatus. discriminate.
  - apply truthy_false in Htarget.
    destruct (connect_no_url st Htarget)
      as ((_ & _ & Hstatus & _) & Href & Hhandlers).
    apply held_settled with (st := st); [unfold held; congruence | | exact Hst].
    now rewrite Hstatus.
Qed.

Lemma step_settled (st st' : Store) : Step st st' -> Settled st -> Settled st'.
Proof.
  intros Hstep Hst.
  destruct Hstep as [st | st | st | st ws target n Hin | st | st | st entry
                    | st id | st u | st b | st m | st b | st l | st w].
  - now apply connect_settled.
  - apply held_settled with (st := st); [apply disconnect_held | | exact Hst].
    intros _. destruct (wsRef st) as [ws|] eqn:Href.
    + destruct (disconnect_closing st Href) as (_ & _ & Hstatus & _).
      rewrite Hstatus. discriminate.
    + destruct (disconnect_idle st Href) as (_ & _ & Hstatus & _).
      rewrite Hstatus. discriminate.
  - apply held_settled with (st := st); [apply sendMessage_held | | exact Hst].
    unfold exec. now rewrite sendMessage_status.
  - pose proof (notify_held target n st) as Hheld.
    injection Hheld as Href Hhandlers. unfold exec.
    destruct Hst as (_ & Hsome). split.
    + intros Hnil. exfalso. rewrite Hhandlers in Hnil.
      rewrite Hnil in Hin. exact Hin.
    + intros _. rewrite Href.
      apply Hsome. intros Hnil. rewrite Hnil in Hin. exact Hin.
  - apply held_settled with (st := st); [apply clearLog_held | | exact Hst].
    unfold exec. now rewrite clearLog_status.
  - destruct (saveCurrentUrl_kept st) as (Hheld & Hstatus).
    apply held_settled with (st := st);
      [exact Hheld | now rewrite Hstatus | exact Hst].
  - apply held_settled with (st := st); [reflexivity | auto | exact Hst].
  - apply held_settled with (st := st); [reflexivity | auto | exact Hst].
  - apply held_settled with (st := st); [reflexivity | auto | exact Hst].
  - apply held_settled with (st := st); [reflexivity | auto | exact Hst].
  - apply held_settled with (st := st); [reflexivity | auto | exact Hst].
  - apply held_settled with (st := st); [reflexivity | auto | exact Hst].
  - apply held_settled with (st := st); [reflexivity | auto | exact Hst].
  - apply held_settled with (st := st); [reflexivity | auto | exact Hst].
Qed.

Lemma reachable_settled (st : Store) : Reachable st -> Settled st.
Proof.
  induction 1 as [st Hstatus Href Hhandlers | st st' _ IH Hstep].
  - split; [intros _; rewrite Hstatus; discriminate | congruence].
  - exact (step_settled Hstep IH).
Qed.

(** In every state the mounted component reaches, a status of Connected
    comes with a socket in [wsRef]: the guard of [sendMessage] on a missing
    socket never fires there. *)
Lemma connected_holds_socket (st : Store) :
  Reachable st -> status st = Connected -> exists ws, wsRef st = Some ws.
Proof.
  intros Hreach Hstatus. destruct (reachable_settled Hreach) as (Hnone & Hsome).
  destruct (wsRef st) as [ws|] eqn:Href; [now exists ws|].
  exfalso. destruct (handlers st) eqn:Hhandlers.
  - now apply Hnone.
  - now apply Hsome.
Qed.

End Reachability.

(** ** The handlers at work in the reference browser *)

Example dialled_log :
  map content (log (dialled "echo.websocket.events"))
  = [(SYSTEM, "Connecting to wss://echo.websocket.events ...")]
  /\ status (dialled "echo.websocket.events") = Connecting
  /\ wsRef (dialled "echo.websocket.events") = Some 0.
Proof. repeat split. Qed.

Example established_log :
  map content (log (established "echo.websocket.events"))
  = [(SYSTEM, "Connecting to wss://echo.websocket.events ...");
     (SYSTEM, "Connected to wss://echo.websocket.events")]
  /\ status (established "echo.websocket.events") = Connected.
Proof. repeat split. Qed.

Example dialled_blank_log :
  map content (log (dialled "   "))
  = [(SYSTEM, "Connecting to wss:// ...");
     (SYSTEM,
      "Failed to connect: Failed to construct 'WebSocket': The URL 'wss://' is invalid.")]
  /\ status (dialled "   ") = Disconnected.
Proof. repeat split. Qed.

Example superseded_state :
  status (superseded "echo.websocket.events") = Connected
  /\ wsRef (superseded "echo.websocket.events") = Some 1
  /\ map Browser.readyState
       (Browser.sockets (world (superseded "echo.websocket.events")))
     = [Browser.OPEN; Browser.CONNECTING].
Proof. repeat split. Qed.

Example send_on_connecting_socket :
  let st := composing payload_a1 true (superseded "echo.websocket.events") in
  let st' := exec (sendMessage (J := ecma)) st in
  filter isSend (newCalls st st') = [Call_send 1 payload_a1]
  /\ map content (newEntries st st')
     = [(SYSTEM,
         "Send failed: Failed to execute 'send' on 'WebSocket': Still in CONNECTING state.")].
Proof. repeat split. Qed.

Example raced_state :
  let u := "echo.websocket.events" in
  status (established u) = Connected
  /\ status (exec disconnect (established u)) = Disconnected
  /\ status (raced u) = Connected
  /\ wsRef (raced u) = Some 2
  /\ map Browser.readyState (Browser.sockets (world (raced u)))
     = [Browser.CLOSED; Browser.OPEN; Browser.CONNECTING].
Proof. repeat split. Qed.

Example send_after_race :
  let st := composing payload_a1 true (raced "echo.websocket.events") in
  let st' := exec (sendMessage (J := ecma)) st in
  filter isSend (newCalls st st') = [Call_send 2 payload_a1]
  /\ map content (newEntries st st')
     = [(SYSTEM,
         "Send failed: Failed to execute 'send' on 'WebSocket': Still in CONNECTING state.")].
Proof. repeat split. Qed.

(** A message with blanks around the tokens is sent in its compact form. *)
Example send_spaced_json :
  let spaced := "{ " ++ Json.dq ++ "a" ++ Json.dq ++ " : 1 }" in
  let st := composing spaced true (established "echo.websocket.events") in
  let st' := exec (sendMessage (J := ecma)) st in
  newCalls st st' = [Call_setError EmptyString; Call_send 0 payload_a1]
  /\ map content (newEntries st st') = [(SENT, pretty_a1)]
  /\ map Browser.frames (Browser.sockets (world st')) = [[payload_a1]].
Proof. repeat split. Qed.

(** A text frame that is no JSON is logged as it came. *)
Example receive_not_json :
  let st := established "echo.websocket.events" in
  map content (newEntries st (exec (onmessage (J := ecma) "not json") st))
  = [(RECEIVED, "not json")].
Proof. reflexivity. Qed.

(** [disconnect] before any [connect] logs one System entry. *)
Example disconnect_never_connected :
  result disconnect mounted = Normal tt
  /\ map content (log (exec disconnect mounted))
     = [(SYSTEM, "Disconnected by user")].
Proof. split; reflexivity. Qed.

(** Saving a padded URL under a label, saving it again under the same label,
    and saving it a third time with the label field left empty. *)
Example save_thrice :
  let st0 := with_urlLabel "Echo" (typedUrl " echo.websocket.events ") in
  let st1 := exec saveCurrentUrl st0 in
  let st2 := exec saveCurrentUrl (with_urlLabel "Echo" st1) in
  let st3 := exec saveCurrentUrl st2 in
  savedUrls st1 = [mkSavedUrl "uuid-0" "Echo" "echo.websocket.events" true]
  /\ urlLabel st1 = EmptyString
  /\ savedUrls st2 = savedUrls st1
  /\ savedUrls st3
     = [mkSavedUrl "uuid-0" "Echo" "echo.websocket.events" true;
        mkSavedUrl "uuid-2" "echo.websocket.events" "echo.websocket.events"
          true].
Proof. repeat split. Qed.

(** C1 to C10 at concrete states. *)

Lemma connect_empty_url_witness :
  url mounted = EmptyString
  /\ status (exec connect mounted) = Disconnected
  /\ length (log (exec connect mounted)) = 1
  /\ error (exec connect mounted) = "Please enter a valid WebSocket URL.".
Proof.
  split; [reflexivity|].
  destruct (connect_empty_url mounted eq_refl)
    as (_ & Hstays & _ & _ & _ & Hlength & Herror & _).
  split; [exact (Hstays eq_refl)|]. split; [exact Hlength | exact Herror].
Defined.

Lemma connect_blank_url_witness :
  let st := typedUrl "   " in
  Js.allWhiteSpace (url st) = true
  /\ normalizeUrl (isSecure st) (url st) = "wss://"
  /\ exists rest,
       newCalls st (exec connect st)
       = ([Call_setError EmptyString; Call_setStatus Connecting;
           Call_WebSocket "wss://"] ++ rest)%list.
Proof.
  cbv zeta. split; [reflexivity|].
  assert (Hfilled : url (typedUrl "   ") <> EmptyString) by discriminate.
  destruct (connect_blank_url (typedUrl "   ") Hfilled eq_refl)
    as (Hnorm & _ & Hcalls & _).
  split; [exact Hnorm | exact Hcalls].
Defined.

Lemma send_outside_connection_witness :
  let st := composing payload_a1 true mounted in
  status st = Disconnected
  /\ existsb isSend (newCalls st (exec (sendMessage (J := ecma)) st)) = false.
Proof.
  cbv zeta. split; [reflexivity|].
  assert (Hstatus : status (composing payload_a1 true mounted) <> Connected)
    by discriminate.
  exact (proj1 (send_outside_connection (J := ecma)
                  (composing payload_a1 true mounted) Hstatus)).
Defined.

Lemma send_json_object_witness :
  let st := composing payload_a1 true (established "echo.websocket.events") in
  let st' := exec (sendMessage (J := ecma)) st in
  status st = Connected
  /\ newCalls st st' = [Call_setError EmptyString; Call_send 0 payload_a1]
  /\ appended (log st) (log st') [(SENT, pretty_a1)].
Proof.
  cbv zeta. split; [reflexivity|].
  destruct (send_json_object
              (composing payload_a1 true (established "echo.websocket.events"))
              (ws := 0) eq_refl eq_refl eq_refl eq_refl)
    as (_ & _ & Htaken & _).
  destruct (Htaken _ eq_refl) as (Hcalls & Hlog & _).
  split; [exact Hcalls | exact Hlog].
Defined.

(** C3, as stated, fails: the status is Connected, the JSON switch is on and
    the message is [{"a":1}], but the socket in [wsRef] is still connecting
    and throws on [send]; the one entry appended is a System entry. *)
Lemma sent_entry_rule_fails :
  ~ sent_entry_rule (J := ecma) payload_a1 payload_a1 pretty_a1
      (composing payload_a1 true (superseded "echo.websocket.events")).
Proof.
  intros Hrule. destruct (Hrule eq_refl eq_refl eq_refl) as (Hentries & _).
  discriminate Hentries.
Qed.

Lemma send_unparsable_witness :
  let st := composing "{invalid" true (established "echo.websocket.events") in
  let st' := exec (sendMessage (J := ecma)) st in
  JSON_parse (message st) = Throw "Unexpected token i in JSON"
  /\ existsb isSend (newCalls st st') = false
  /\ error st' = "Invalid JSON: Unexpected token i in JSON".
Proof.
  cbv zeta. split; [reflexivity|].
  destruct (send_unparsable (J := ecma)
              (composing "{invalid" true (established "echo.websocket.events"))
              (e := "Unexpected token i in JSON") eq_refl eq_refl)
    as (Hquiet & _ & Hreport).
  split; [exact Hquiet|].
  assert (Hheld : wsRef (composing "{invalid" true
                           (established "echo.websocket.events")) <> None)
    by discriminate.
  exact (proj1 (Hreport eq_refl Hheld eq_refl)).
Defined.

(** C4, as stated, fails: connected, in JSON mode, the blank message does not
    parse as JSON, and [sendMessage] returns with the error cleared. *)
Lemma unparsable_rule_fails :
  ~ unparsable_rule (J := ecma)
      (composing "   " true (established "echo.websocket.events")).
Proof.
  intros Hrule.
  assert (Hparse :
            exists e,
              JSON_parse
                (message (composing "   " true
                            (established "echo.websocket.events")))
              = Throw e)
    by (eexists; reflexivity).
  destruct (Hrule eq_refl Hparse) as (Herror & _).
  discriminate Herror.
Qed.

Lemma eventful_entries_witness :
  eventful (J := ecma) Connect (typedUrl "   ") = true
  /\ entriesDue Connect (typedUrl "   ") = 2
  /\ exists added,
       log (exec connect (typedUrl "   ")) = added /\ length added = 2.
Proof.
  split; [reflexivity|]. split; [reflexivity|].
  destruct (eventful_entries (J := ecma) Connect (typedUrl "   ") eq_refl)
    as (added & Hlog & Hlength & _).
  exists added. split; [exact Hlog | exact Hlength].
Defined.

(** C2, as stated, fails: [connect] with a blank URL field reaches the
    constructor, which throws on the bare protocol; the invocation reports the
    error and appends two entries. *)
Lemma one_entry_rule_fails :
  ~ one_entry_rule (J := ecma) Connect (typedUrl "   ").
Proof.
  intros Hrule. specialize (Hrule eq_refl). discriminate Hrule.
Qed.

(** C9, as stated, fails: with the URL field empty and nothing saved, no
    saved entry matches and [saveCurrentUrl] appends nothing. *)
Lemma save_rule_fails : ~ save_rule mounted.
Proof.
  intros [_ Hnew].
  assert (Hnone : ~ alreadySaved mounted) by (intros (x & [] & _)).
  destruct (Hnew Hnone) as (entry & Hsaved & _).
  destruct (savedUrls mounted); discriminate Hsaved.
Qed.

(** * Further properties of the handlers *)

(** ** The normalised URL *)

Section Normalised.

Import Js.

Lemma trim_trimmed (s : string) : isTrimmed (trim s) = true.
Proof. destruct (trim_spec s) as (l & r & _ & _ & _ & Ht). exact Ht. Qed.

Lemma trim_idempotent (s : string) : trim (trim s) = trim s.
Proof. apply trim_fixed, trim_trimmed. Qed.

Lemma last_append_cons (a : string) (c : ascii) (t : string) :
  last (a ++ String c t) = last (String c t).
Proof.
  induction a as [|x a IH]; [reflexivity|].
  cbn [append]. destruct (a ++ String c t) eqn:Ha.
  - destruct a; discriminate Ha.
  - rewrite <- IH. reflexivity.
Qed.

Lemma isTrimmed_protocol (secure : bool) (t : string) :
  isTrimmed t = true -> isTrimmed (protocolHint secure ++ t) = true.
Proof.
  destruct t as [|c t]; [destruct secure; reflexivity|].
  unfold isTrimmed. rewrite last_append_cons.
  cbn [first]. destruct (last (String c t)) as [b|] eqn:Hlast.
  - intros Hcb. apply andb_true_iff in Hcb as [_ Hb]. rewrite Hb.
    destruct secure; reflexivity.
  - destruct secure; reflexivity.
Qed.

Lemma normalizeUrl_trimmed_output (secure : bool) (u : string) :
  isTrimmed (normalizeUrl secure u) = true.
Proof.
  unfold normalizeUrl. destruct (truthy u); cbn [negb]; [|reflexivity].
  destruct (startsWith (trim u) "ws://" || startsWith (trim u) "wss://").
  - apply trim_trimmed.
  - apply isTrimmed_protocol, trim_trimmed.
Qed.

End Normalised.

(** X1: what [normalizeUrl] returns has no white space at either end, is
    empty only for the empty input, begins with ws:// or wss:// otherwise, and
    is left as it is by [normalizeUrl] under either secure flag. *)
Theorem normalizeUrl_settles (secure : bool) (u : string) :
  let target := normalizeUrl secure u in
  Js.isTrimmed target = true
  /\ (target = EmptyString <-> u = EmptyString)
  /\ (u <> EmptyString -> hasWsPrefix target = true)
  /\ (forall flag, normalizeUrl flag target = target).
Proof.
  intros target.
  pose proof (normalizeUrl_trimmed_output secure u) as Htrimmed.
  pose proof (normalizeUrl_truthy secure u) as Htruthy.
  fold target in Htrimmed, Htruthy.
  split; [exact Htrimmed|]. split; [|split].
  - rewrite <- !truthy_false. now rewrite Htruthy.
  - intros Hu. exact (normalizeUrl_prefixed secure Hu).
  - intros flag. destruct (Js.truthy u) eqn:Hu.
    + pose proof (normalizeUrl_prefixed secure (proj1 (truthy_true u) Hu))
        as Hprefix.
      fold target in Hprefix. clearbody target.
      unfold normalizeUrl. rewrite Htruthy. cbn [negb].
      rewrite (trim_fixed target Htrimmed).
      unfold hasWsPrefix in Hprefix. rewrite Hprefix. reflexivity.
    + apply truthy_false in Hu. subst u. reflexivity.
Qed.

(** ** No exception leaves a handler *)

Section Returns.

Context {H : Host} {J : JsonApi}.










End Returns.



Section Robust.

Context {H : Host} {J : JsonApi}.







End Robust.

(** ** Connecting and disconnecting *)

Section Connecting.

Context {H : Host} {J : JsonApi}.

Lemma newCalls_of (st st' : Store) (cs : list Call) :
  calls st' = (calls st ++ cs)%list -> newCalls st st' = cs.
Proof.
  intros Hcalls. unfold newCalls. rewrite Hcalls.
  rewrite skipn_app, skipn_all, Nat.sub_diag. reflexivity.
Qed.

(** X3: when the URL field is not empty and the constructor returns a
    socket, [connect] leaves the status Connecting, the error cleared and the
    new socket in [wsRef], whatever socket was there; it installs the handlers
    for the normalised URL and logs one System entry. *)
Theorem connect_opens (st : Store) (ws : WebSocket) (w : World) :
  let target := normalizeUrl (isSecure st) (url st) in
  url st <> EmptyString ->
  WebSocket_new target (stamped (world st)) = (Normal ws, w) ->
  let st' := exec connect st in
  status st' = Connecting
  /\ error st' = EmptyString
  /\ wsRef st' = Some ws
  /\ handlers st' = (handlers st ++ [(ws, target)])%list
  /\ hasWsPrefix target = true
  /\ appended (log st) (log st') [(SYSTEM, "Connecting to " ++ target ++ " ...")].
Proof.
  intros target Hurl Hnew st'.
  assert (Htarget : Js.truthy target = true).
  { unfold target. rewrite normalizeUrl_truthy. now apply truthy_true. }
  destruct (connect_opening st Htarget Hnew)
    as ((_ & Hlog & Hstatus & Herror) & Href & Hhandlers & _).
  repeat split; try assumption.
  exact (normalizeUrl_prefixed (isSecure st) Hurl).
Qed.

(** X4: when the URL field is not empty and the constructor throws,
    [connect] ends with the status Disconnected, whatever it was, never
    Connecting; the error is "Failed to connect: " and the message thrown,
    [wsRef] and the installed handlers are as before, and two System entries
    are logged: the attempt and the failure. *)
Theorem connect_fails (st : Store) (e : string) (w : World) :
  let target := normalizeUrl (isSecure st) (url st) in
  url st <> EmptyString ->
  WebSocket_new target (stamped (world st)) = (Throw e, w) ->
  let st' := exec connect st in
  status st' = Disconnected
  /\ error st' = "Failed to connect: " ++ e
  /\ wsRef st' = wsRef st
  /\ handlers st' = handlers st
  /\ appended (log st) (log st')
       [(SYSTEM, "Connecting to " ++ target ++ " ...");
        (SYSTEM, "Failed to connect: " ++ e)].
Proof.
  intros target Hurl Hnew st'.
  assert (Htarget : Js.truthy target = true).
  { unfold target. rewrite normalizeUrl_truthy. now apply truthy_true. }
  destruct (connect_failing st Htarget Hnew)
    as ((_ & Hlog & Hstatus & Herror) & Href & Hhandlers).
  repeat split; assumption.
Qed.

(** X5: the only call [connect] makes to the transport is the constructor,
    once, with a URL that begins with ws:// or wss://, and only when the URL
    field is not empty: the socket in [wsRef] that the new one replaces is
    never closed. *)
Theorem connect_transport_calls (st : Store) :
  let target := normalizeUrl (isSecure st) (url st) in
  let st' := exec connect st in
  filter isTransport (newCalls st st')
  = (if Js.truthy (url st) then [Call_WebSocket target] else [])
  /\ (Js.truthy (url st) = true -> hasWsPrefix target = true)
  /\ filter isClose (newCalls st st') = [].
Proof.
  intros target st'.
  pose proof (normalizeUrl_truthy (isSecure st) (url st)) as Htruthy.
  fold target in Htruthy.
  assert (Hprefix : Js.truthy (url st) = true -> hasWsPrefix target = true).
  { intros Hurl. apply normalizeUrl_prefixed. now apply truthy_true. }
  destruct (Js.truthy (url st)) eqn:Hurl.
  - destruct (WebSocket_new target (stamped (world st))) as [[ws|e] w] eqn:Hnew.
    + destruct (connect_opening st Htruthy Hnew) as (Heff & _).
      fold st' in Heff. rewrite (effects_newCalls Heff). repeat split; auto.
    + destruct (connect_failing st Htruthy Hnew) as (Heff & _).
      fold st' in Heff. rewrite (effects_newCalls Heff). repeat split; auto.
  - apply truthy_false in Htruthy.
    destruct (connect_no_url st Htruthy) as (Heff & _).
    fold st' in Heff. rewrite (effects_newCalls Heff). repeat split; auto.
Qed.

(** X6: [disconnect] always ends with the status Disconnected and one System
    entry "Disconnected by user"; it calls [close(1000, 'User disconnect')] on
    the socket in [wsRef] when there is one, whether [close] throws or not,
    and makes no transport call when there is none. It does not clear [wsRef]
    and leaves the error message as it is. *)
Theorem disconnect_always (st : Store) :
  let st' := exec disconnect st in
  status st' = Disconnected
  /\ error st' = error st
  /\ wsRef st' = wsRef st
  /\ appended (log st) (log st') [(SYSTEM, "Disconnected by user")]
  /\ filter isTransport (newCalls st st')
     = match wsRef st with
       | Some ws => [Call_close ws 1000 "User disconnect"]
       | None => []
       end.
Proof.
  intros st'.
  pose proof (disconnect_held st) as Hheld. injection Hheld as Href _.
  fold (exec disconnect st) in Href. fold st' in Href.
  destruct (wsRef st) as [ws|] eqn:Hws.
  - pose proof (disconnect_closing st Hws) as Heff. fold st' in Heff.
    rewrite (effects_newCalls Heff).
    destruct Heff as (_ & Hlog & Hstatus & Herror).
    repeat split; assumption.
  - pose proof (disconnect_idle st Hws) as Heff. fold st' in Heff.
    rewrite (effects_newCalls Heff).
    destruct Heff as (_ & Hlog & Hstatus & Herror).
    repeat split; assumption.
Qed.

(** X7: the cleanup on unmount calls [close(1000, 'Component unmounted')]
    on the socket in [wsRef] when there is one and does nothing else: status,
    error, log and [wsRef] stay as they are, also when [close] throws. *)
Theorem unmount_closes (st : Store) :
  let st' := exec unmount st in
  newCalls st st'
  = match wsRef st with
    | Some ws => [Call_close ws 1000 "Component unmounted"]
    | None => []
    end
  /\ status st' = status st
  /\ error st' = error st
  /\ log st' = log st
  /\ wsRef st' = wsRef st.
Proof.
  unfold_handler. handler_simpl.
  destruct (wsRef st) as [ws|] eqn:Hws; handler_simpl.
  - destruct (WebSocket_close ws 1000 "Component unmounted" (world st))
      as [[[]|e] w]; handler_simpl;
      (split; [apply newCalls_of; reflexivity | repeat split; assumption]).
  - split; [apply newCalls_of; handler_simpl; now rewrite app_nil_r|].
    repeat split; assumption.
Qed.

End Connecting.

(** ** Sending, case by case *)

(** Proves that a handler keeps an observation that none of its setters
    writes. *)
Ltac frame_step :=
  first
    [ apply keeps_ret | apply keeps_throw | apply keeps_get | apply keeps_eval
    | apply prettyOrRaw_keeps
    | apply keeps_modify; intros; reflexivity
    | apply addLog_keeps; intros; reflexivity
    | apply send_keeps; intros; reflexivity
    | apply close_keeps; intros; reflexivity
    | apply keeps_bind; [|intros ?]
    | apply keeps_try_catch; [|intros ?]
    | apply keeps_try_finally
    | match goal with
      | |- keeps _ (if ?b then _ else _) => destruct b
      | |- keeps _ (match ?x with _ => _ end) => destruct x
      end ].

Ltac frame_auto :=
  unfold setStatus, setError, setUrl, setIsSecure, setUrlLabel, setMessage,
    setIsJson, setLog, setSavedUrls;
  repeat frame_step.

Section SendingCases.

Context {H : Host} {J : JsonApi}.

(** X8: in text mode, connected, with a message that is not blank and a
    transport that takes it, [sendMessage] passes the message to [send] as it
    was typed (not trimmed) and logs it as it was typed in one Sent entry
    (not pretty-printed, also when it is JSON); the error is cleared. *)
Theorem send_text_verbatim (st : Store) (ws : WebSocket) (w : World) :
  status st = Connected ->
  wsRef st = Some ws ->
  isJson st = false ->
  Js.truthy (Js.trim (message st)) = true ->
  WebSocket_send ws (message st) (world st) = (Normal tt, w) ->
  let st' := exec sendMessage st in
  newCalls st st' = [Call_setError EmptyString; Call_send ws (message st)]
  /\ appended (log st) (log st') [(SENT, message st)]
  /\ error st' = EmptyString.
Proof.
  intros Hstatus Href Hjson Hfilled Hsend st'.
  assert (Hprep : prepared st = Normal (message st))
    by (unfold prepared; now rewrite Hjson).
  pose proof (send_delivered st Hstatus Href Hfilled Hprep Hsend) as Heff.
  fold st' in Heff. rewrite Hjson in Heff.
  rewrite (effects_newCalls Heff).
  destruct Heff as (_ & Hlog & _ & Herror).
  repeat split; assumption.
Qed.

(** X9: when the transport throws on [send], [sendMessage] reports it: the
    error is "Send failed: " and the message thrown, one System entry of the
    same text is logged and no Sent entry; the status stays Connected. *)
Theorem send_failure_reported (st : Store) (ws : WebSocket)
  (payload e : string) (w : World) :
  status st = Connected ->
  wsRef st = Some ws ->
  Js.truthy (Js.trim (message st)) = true ->
  prepared st = Normal payload ->
  WebSocket_send ws payload (world st) = (Throw e, w) ->
  let st' := exec sendMessage st in
  error st' = "Send failed: " ++ e
  /\ appended (log st) (log st') [(SYSTEM, "Send failed: " ++ e)]
  /\ existsb isSent (newEntries st st') = false
  /\ filter isSend (newCalls st st') = [Call_send ws payload]
  /\ status st' = Connected.
Proof.
  intros Hstatus Href Hfilled Hprep Hsend st'.
  pose proof (send_failed st Hstatus Href Hfilled Hprep Hsend) as Heff.
  fold st' in Heff. rewrite (effects_newCalls Heff).
  destruct Heff as (_ & Hlog & Hst & Herror). cbn in Hst.
  pose proof (appended_newEntries _ _ Hlog) as Hentries.
  destruct (contents_one _ Hentries) as (x & Hx & Hcontent).
  repeat split; try assumption.
  - rewrite Hx. unfold isSent. cbn. injection Hcontent as -> _. reflexivity.
  - congruence.
Qed.

(** X10: connected, with a blank message (empty or white space only),
    [sendMessage] clears the error and does nothing else: no entry is logged,
    nothing is sent, and the browser is not consulted. *)
Theorem send_blank_ignored (st : Store) (ws : WebSocket) :
  status st = Connected ->
  wsRef st = Some ws ->
  Js.truthy (Js.trim (message st)) = false ->
  let st' := exec sendMessage st in
  log st' = log st
  /\ error st' = EmptyString
  /\ newCalls st st' = [Call_setError EmptyString]
  /\ world st' = world st.
Proof.
  intros Hstatus Href Hblank st'.
  destruct (send_blank st Hstatus Href Hblank) as (Heff & Hworld).
  fold st' in Heff, Hworld. rewrite (effects_newCalls Heff).
  destruct Heff as (_ & (added & Hlog & Hnone) & _ & Herror).
  destruct added; [|discriminate Hnone]. rewrite app_nil_r in Hlog.
  repeat split; assumption.
Qed.

Lemma sendMessage_keeps_fields :
  keeps message sendMessage /\ keeps isJson sendMessage
  /\ keeps url sendMessage /\ keeps isSecure sendMessage
  /\ keeps savedUrls sendMessage.
Proof.
  repeat split; unfold sendMessage, sendCurrent; frame_auto.
Qed.

(** X11: whatever happens, [sendMessage] leaves the status, the socket in
    [wsRef], the message box and the JSON switch as they are: a message that
    was sent stays in the box, and a failed send does not change the
    status. *)
Theorem sendMessage_frame (st : Store) :
  let st' := exec sendMessage st in
  status st' = status st
  /\ wsRef st' = wsRef st
  /\ handlers st' = handlers st
  /\ message st' = message st
  /\ isJson st' = isJson st
  /\ url st' = url st
  /\ isSecure st' = isSecure st
  /\ savedUrls st' = savedUrls st.
Proof.
  intros st'. unfold st', exec.
  destruct sendMessage_keeps_fields as (Hm & Hj & Hu & Hs & Hv).
  pose proof (sendMessage_held st) as Hheld. injection Hheld as Href Hhandlers.
  repeat split; auto. apply sendMessage_status.
Qed.

End SendingCases.

(** ** What the socket's handlers do *)

Section Notifications.

Context {H : Host} {J : JsonApi}.

(** X12: a notification changes the connection state by its kind alone: open
    sets the status Connected and close sets it Disconnected, whatever it was;
    a message or an error leaves the status; only an error sets the error
    message (open, message and close leave it as it is). None of the four
    handlers touches [wsRef] or calls the transport. *)
Theorem notify_state (target : string) (n : Notification) (st : Store) :
  let st' := exec (notify target n) st in
  status st'
  = match n with
    | Open => Connected
    | Close _ _ => Disconnected
    | _ => status st
    end
  /\ error st'
     = match n with
       | Error _ => "WebSocket error occurred. Check the console or server."
       | _ => error st
       end
  /\ wsRef st' = wsRef st
  /\ handlers st' = handlers st
  /\ filter isTransport (newCalls st st') = [].
Proof.
  intros st'.
  pose proof (notify_held target n st) as Hheld.
  injection Hheld as Href Hhandlers.
  fold (exec (notify target n) st) in Href, Hhandlers. fold st' in Href, Hhandlers.
  destruct n as [|data|evt_message|code reason]; cbn [notify] in st'.
  - pose proof (onopen_run target st) as Heff. fold st' in Heff.
    rewrite (effects_newCalls Heff). destruct Heff as (_ & _ & Hs & He).
    repeat split; assumption.
  - pose proof (onmessage_run data st) as Heff. fold st' in Heff.
    rewrite (effects_newCalls Heff). destruct Heff as (_ & _ & Hs & He).
    repeat split; assumption.
  - pose proof (onerror_run evt_message st) as Heff. fold st' in Heff.
    rewrite (effects_newCalls Heff). destruct Heff as (_ & _ & Hs & He).
    repeat split; assumption.
  - pose proof (onclose_run code reason st) as Heff. fold st' in Heff.
    rewrite (effects_newCalls Heff). destruct Heff as (_ & _ & Hs & He).
    repeat split; assumption.
Qed.

(** X13: every notification logs exactly one entry. Open logs the URL the
    socket was created for; a message is logged as Received, indented by two
    when it parses as JSON and as it came when it does not; an error logs the
    event's message, or "An error occurred" when the event has none or an
    empty one; close logs the code and the reason, or "Connection closed" when
    the reason is empty. *)
Theorem notify_logs (target : string) (n : Notification) (st : Store) :
  appended (log st) (log (exec (notify target n) st))
    [match n with
     | Open => (SYSTEM, "Connected to " ++ target)
     | Message data =>
         (RECEIVED,
          match JSON_parse data with
          | Normal v => JSON_stringify_indent v 2
          | Throw _ => data
          end)
     | Error evt_message =>
         (SYSTEM,
          "Error: " ++
          match evt_message with
          | Some (String c m) => String c m
          | _ => "An error occurred"
          end)
     | Close code reason =>
         (SYSTEM,
          "Disconnected (" ++ Js.numberToString code ++ ") - " ++
          match reason with
          | EmptyString => "Connection closed"
          | _ => reason
          end)
     end].
Proof.
  destruct n as [|data|evt_message|code reason]; cbn [notify].
  - exact (proj1 (proj2 (onopen_run target st))).
  - exact (proj1 (proj2 (onmessage_run data st))).
  - pose proof (proj1 (proj2 (onerror_run evt_message st))) as Hlog.
    destruct evt_message as [[|c m]|]; exact Hlog.
  - pose proof (proj1 (proj2 (onclose_run code reason st))) as Hlog.
    destruct reason; exact Hlog.
Qed.

End Notifications.

(** ** Along the life of the component *)

Section Life.

Context {H : Host} {J : JsonApi}.

Lemma held_wired (st st' : Store) :
  held st' = held st -> Wired st -> Wired st'.
Proof.
  unfold held, Wired. intros [= Href Hhandlers]. now rewrite Href, Hhandlers.
Qed.

Lemma connect_wired (st : Store) : Wired st -> Wired (exec connect st).
Proof.
  intros Hst.
  destruct (Js.truthy (normalizeUrl (isSecure st) (url st))) eqn:Htarget.
  - destruct (WebSocket_new (normalizeUrl (isSecure st) (url st))
                (stamped (world st))) as [[ws|e] w] eqn:Hnew.
    + destruct (connect_opening st Htarget Hnew) as (_ & Href & Hhandlers & _).
      destruct Hst as (_ & Hprefixed). split.
      * intros ws' Hws'. rewrite Href in Hws'. injection Hws' as <-.
        exists (normalizeUrl (isSecure st) (url st)).
        rewrite Hhandlers, in_app_iff. right. now left.
      * intros ws' target. rewrite Hhandlers, in_app_iff.
        intros [Hin | [[= _ <-] | []]]; [now apply (Hprefixed ws')|].
        apply normalizeUrl_prefixed.
        rewrite normalizeUrl_truthy in Htarget. now apply truthy_true.
    + destruct (connect_failing st Htarget Hnew) as (_ & Href & Hhandlers).
      apply held_wired with (st := st); [unfold held; congruence | exact Hst].
  - apply truthy_false in Htarget.
    destruct (connect_no_url st Htarget) as (_ & Href & Hhandlers).
    apply held_wired with (st := st); [unfold held; congruence | exact Hst].
Qed.

Lemma step_wired (st st' : Store) : Step st st' -> Wired st -> Wired st'.
Proof.
  intros Hstep Hst.
  destruct Hstep as [st | st | st | st ws target n Hin | st | st | st entry
                    | st id | st u | st b | st m | st b | st l | st w].
  - now apply connect_wired.
  - apply held_wired with (st := st); [apply disconnect_held | exact Hst].
  - apply held_wired with (st := st); [apply sendMessage_held | exact Hst].
  - apply held_wired with (st := st); [apply notify_held | exact Hst].
  - apply held_wired with (st := st); [apply clearLog_held | exact Hst].
  - apply held_wired with (st := st);
      [exact (proj1 (saveCurrentUrl_kept st)) | exact Hst].
  - apply held_wired with (st := st); [reflexivity | exact Hst].
  - apply held_wired with (st := st); [reflexivity | exact Hst].
  - apply held_wired with (st := st); [reflexivity | exact Hst].
  - apply held_wired with (st := st); [reflexivity | exact Hst].
  - apply held_wired with (st := st); [reflexivity | exact Hst].
  - apply held_wired with (st := st); [reflexivity | exact Hst].
  - apply held_wired with (st := st); [reflexivity | exact Hst].
  - apply held_wired with (st := st); [reflexivity | exact Hst].
Qed.

Lemma reachable_wired (st : Store) : Reachable st -> Wired st.
Proof.
  induction 1 as [st Hstatus Href Hhandlers | st st' _ IH Hstep].
  - split.
    + intros ws Hws. congruence.
    + intros ws target Hin. rewrite Hhandlers in Hin. destruct Hin.
  - exact (step_wired Hstep IH).
Qed.

(** X14: in every state the mounted component reaches, a status of
    Connected comes with a socket in [wsRef], and the socket in [wsRef] is
    always one that [connect] created, for a URL that begins with ws:// or
    wss://, and that carries the four handlers. *)
Theorem reachable_connected (st : Store) :
  Reachable st ->
  (status st = Connected -> exists ws, wsRef st = Some ws)
  /\ (forall ws,
        wsRef st = Some ws ->
        exists target,
          In (ws, target) (handlers st) /\ hasWsPrefix target = true).
Proof.
  intros Hreach.
  destruct (reachable_settled Hreach) as (Hnone & Hsome).
  destruct (reachable_wired Hreach) as (Hheld & Hprefixed).
  split.
  - intros Hstatus. destruct (wsRef st) as [ws|] eqn:Href; [now exists ws|].
    exfalso. destruct (handlers st) eqn:Hhandlers.
    + now apply Hnone.
    + now apply Hsome.
  - intros ws Href. destruct (Hheld ws Href) as (target & Hin).
    exists target. split; [exact Hin | exact (Hprefixed ws target Hin)].
Qed.

(** X15: when the Send button is enabled (connected, message not blank) in
    a state the component reaches, pressing it never ends at the "not
    connected" guard or the blank guard of [sendMessage]: there is a socket
    in [wsRef], and either the payload is passed to its [send], in exactly
    one transport call, or, in JSON mode with a message that does not parse,
    the parse error is reported and the transport is not called. *)
Theorem send_enabled_sends (st : Store) :
  Reachable st ->
  sendDisabled st = false ->
  let st' := exec sendMessage st in
  exists ws,
    wsRef st = Some ws
    /\ match prepared st with
       | Normal payload =>
           filter isTransport (newCalls st st') = [Call_send ws payload]
       | Throw e =>
           filter isTransport (newCalls st st') = []
           /\ error st' = "Invalid JSON: " ++ e
       end.
Proof.
  intros Hreach Henabled st'.
  unfold sendDisabled, connected in Henabled.
  apply orb_false_iff in Henabled as [Hstatus Hfilled].
  apply negb_false_iff in Hstatus, Hfilled.
  apply Status_eqb_eq in Hstatus.
  destruct (reachable_settled Hreach) as (Hnone & Hsome).
  destruct (wsRef st) as [ws|] eqn:Href.
  - exists ws. split; [reflexivity|].
    destruct (prepared st) as [payload|e] eqn:Hprep.
    + destruct (WebSocket_send ws payload (world st)) as [[[]|e] w] eqn:Hsend.
      * pose proof (send_delivered st Hstatus Href Hfilled Hprep Hsend) as Heff.
        fold st' in Heff. now rewrite (effects_newCalls Heff).
      * pose proof (send_failed st Hstatus Href Hfilled Hprep Hsend) as Heff.
        fold st' in Heff. now rewrite (effects_newCalls Heff).
    + pose proof (send_invalid st Hstatus Href Hfilled Hprep) as Heff.
      fold st' in Heff. rewrite (effects_newCalls Heff).
      destruct Heff as (_ & _ & _ & Herror). split; [reflexivity | exact Herror].
  - exfalso. destruct (handlers st) eqn:Hhandlers.
    + now apply Hnone.
    + now apply Hsome.
Qed.

(** X28: exactly one of the Connect and Disconnect buttons is rendered, and
    in a state the component reaches, when it is Disconnect, pressing it
    closes a socket: [wsRef] holds one, [close(1000, 'User disconnect')] on it
    is the one call to the transport, and afterwards the Connect button is
    rendered and enabled. *)
Theorem disconnect_shown_closes (st : Store) :
  Reachable st ->
  disconnectShown st = true ->
  let st' := exec disconnect st in
  connectShown st = false
  /\ (exists ws,
        wsRef st = Some ws
        /\ filter isTransport (newCalls st st')
           = [Call_close ws 1000 "User disconnect"])
  /\ connectShown st' = true
  /\ connectDisabled st' = false
  /\ disconnectShown st' = false.
Proof.
  intros Hreach Hshown st'.
  unfold connectShown, connectDisabled, disconnectShown, connecting, connected
    in *.
  split; [now rewrite Hshown|].
  apply Status_eqb_eq in Hshown.
  destruct (connected_holds_socket Hreach Hshown) as (ws & Href).
  pose proof (disconnect_closing st Href) as Heff. fold st' in Heff.
  rewrite (effects_newCalls Heff).
  destruct Heff as (_ & _ & Hstatus & _). unfold statusAfter in Hstatus.
  split; [exists ws; split; [exact Href | reflexivity]|].
  rewrite Hstatus. repeat split.
Qed.

(** X16: the log only grows, except by [clearLog]: along every step of the
    component the entries in the log stay as they are and where they are, and
    at most two are added after them; [clearLog] leaves the one entry "Log
    cleared". *)
Theorem step_log (st st' : Store) :
  Step st st' ->
  (exists added, log st' = (log st ++ added)%list /\ length added <= 2)
  \/ (st' = exec clearLog st
      /\ map content (log st') = [(SYSTEM, "Log cleared")]).
Proof.
  assert (Hsame : forall s s' : Store,
             log s' = log s ->
             exists added, log s' = (log s ++ added)%list /\ length added <= 2).
  { intros s s' Hlog. exists []. rewrite app_nil_r. split; [exact Hlog|]. cbn. lia. }
  intros Hstep.
  destruct Hstep as [st | st | st | st ws target n Hin | st | st | st entry
                    | st id | st u | st b | st m | st b | st l | st w].
  - left. exact (perform_appends Connect st).
  - left. exact (perform_appends Disconnect st).
  - left. exact (perform_appends Send st).
  - left. exact (perform_appends (Notify target n) st).
  - right. split; [reflexivity|].
    unfold_handler. handler_simpl. log_step. handler_simpl.
    now rewrite Hcontent.
  - left. apply Hsame.
    destruct (Js.truthy (currentUrl st)) eqn:Hurl.
    + unfold exec, saveCurrentUrl, bind, get, ret, randomUUID, setSavedUrls,
        setUrlLabel, modify.
      unfold currentUrl in Hurl.
      cbn -[Js.trim Js.truthy Js.or_else sameSaved]. rewrite Hurl. cbn [negb].
      destruct (crypto_randomUUID (world st)) as [id w]. reflexivity.
    + now rewrite (saveCurrentUrl_blank st Hurl).
  - left. now apply Hsame.
  - left. now apply Hsame.
  - left. now apply Hsame.
  - left. now apply Hsame.
  - left. now apply Hsame.
  - left. now apply Hsame.
  - left. now apply Hsame.
  - left. now apply Hsame.
Qed.

End Life.

(** ** Saved connections, used *)

Section SavedUsed.

Context {H : Host}.



Lemma saveCurrentUrl_fields (st : Store) :
  url (exec saveCurrentUrl st) = url st
  /\ isSecure (exec saveCurrentUrl st) = isSecure st
  /\ log (exec saveCurrentUrl st) = log st
  /\ calls (exec saveCurrentUrl st) = calls st.
Proof.
  unfold exec, saveCurrentUrl, bind, get, ret, randomUUID, setSavedUrls,
    setUrlLabel, modify.
  cbn -[Js.trim Js.truthy Js.or_else sameSaved].
  destruct (Js.truthy (Js.trim (url st))); cbn [negb]; [|repeat split].
  destruct (crypto_randomUUID (world st)) as [id w].
  repeat split.
Qed.

(** After [saveCurrentUrl] with a URL field that is not blank, an entry of
    the URL, flag and label to save is in the collection. *)
Lemma saveCurrentUrl_present (st : Store) :
  Js.truthy (currentUrl st) = true ->
  exists x,
    In x (savedUrls (exec saveCurrentUrl st))
    /\ saved_url x = currentUrl st
    /\ saved_secure x = isSecure st
    /\ saved_label x = currentLabel st.
Proof.
  intros Hurl. destruct (saveCurrentUrl_run st Hurl) as (Hsaved & _).
  cbv zeta in Hsaved. rewrite Hsaved.
  destruct (existsb _ (savedUrls st)) eqn:Hex.
  - apply existsb_sameSaved in Hex. exact Hex.
  - eexists. split; [apply in_app_iff; right; left; reflexivity|].
    repeat split.
Qed.

(** X17: after [saveCurrentUrl] with a URL field that is not blank, the
    collection holds an entry with the trimmed URL, the secure flag and the
    label to save (the trimmed label field, or the trimmed URL when that is
    blank); no saved entry was removed, the label field is cleared, and the
    URL field, the secure flag and the log are as before. *)
Theorem saveCurrentUrl_then_saved (st : Store) :
  Js.truthy (Js.trim (url st)) = true ->
  let st' := exec saveCurrentUrl st in
  (exists x,
     In x (savedUrls st')
     /\ saved_url x = Js.trim (url st)
     /\ saved_secure x = isSecure st
     /\ saved_label x
        = (if Js.truthy (Js.trim (urlLabel st))
           then Js.trim (urlLabel st)
           else Js.trim (url st)))
  /\ (forall x, In x (savedUrls st) -> In x (savedUrls st'))
  /\ urlLabel st' = EmptyString
  /\ url st' = url st
  /\ isSecure st' = isSecure st
  /\ log st' = log st.
Proof.
  intros Hurl st'.
  destruct (saveCurrentUrl_run st Hurl) as (Hsaved & Hlabel & _).
  destruct (saveCurrentUrl_fields st) as (Hu & Hs & Hl & _).
  split; [exact (saveCurrentUrl_present st Hurl)|].
  repeat split; try assumption.
  intros x Hin. fold st' in Hsaved. cbv zeta in Hsaved. rewrite Hsaved.
  destruct (existsb _ (savedUrls st)); [exact Hin|].
  apply in_app_iff. now left.
Qed.

(** X18: pressing Save URL twice with the label field blank saves once: the
    second [saveCurrentUrl] finds the entry of the first and leaves the
    collection as it is. *)
Theorem saveCurrentUrl_twice (st : Store) :
  Js.truthy (Js.trim (url st)) = true ->
  Js.truthy (Js.trim (urlLabel st)) = false ->
  let st' := exec saveCurrentUrl st in
  savedUrls (exec saveCurrentUrl st') = savedUrls st'.
Proof.
  intros Hurl Hblank st'.
  destruct (saveCurrentUrl_run st Hurl) as (_ & Hlabel & _).
  destruct (saveCurrentUrl_fields st) as (Hu & Hs & _).
  fold st' in Hlabel, Hu, Hs.
  assert (Hurl' : Js.truthy (currentUrl st') = true)
    by (unfold currentUrl; now rewrite Hu).
  destruct (saveCurrentUrl_present st Hurl) as (x & Hin & Hx1 & Hx2 & Hx3).
  fold st' in Hin.
  destruct (saveCurrentUrl_run st' Hurl') as (Hsaved & _).
  cbv zeta in Hsaved. rewrite Hsaved.
  assert (Hdup : alreadySaved st').
  { exists x. split; [exact Hin|].
    unfold currentLabel, currentUrl in *. rewrite Hu, Hs, Hlabel.
    unfold Js.or_else in *. rewrite Hblank in Hx3. cbn [Js.trim Js.trimStart
      Js.trimEnd Js.truthy]. repeat split; assumption. }
  apply (existsb_sameSaved st' (fst (crypto_randomUUID (world st')))) in Hdup.
  now rewrite Hdup.
Qed.

Lemma filter_other_ids (id : string) (l : list SavedUrl) :
  ~ In id (map saved_id l) ->
  filter (fun x => negb (String.eqb (saved_id x) id)) l = l.
Proof.
  induction l as [|x l IH]; [reflexivity|].
  cbn. intros Hnot.
  destruct (String.eqb_spec (saved_id x) id) as [Heq | Hne].
  - exfalso. apply Hnot. now left.
  - cbn. f_equal. apply IH. intros Hin. apply Hnot. now right.
Qed.

(** X19: [deleteSavedUrl] removes the entries of the given identifier and
    no other: an entry is saved afterwards exactly when it was saved before
    under another identifier; an identifier that no entry has changes
    nothing, and so does deleting a second time. Nothing is logged. *)
Theorem deleteSavedUrl_removes (id : string) (st : Store) :
  let st' := exec (deleteSavedUrl id) st in
  (forall x, In x (savedUrls st')
             <-> In x (savedUrls st) /\ saved_id x <> id)
  /\ (~ In id (map saved_id (savedUrls st)) -> savedUrls st' = savedUrls st)
  /\ savedUrls (exec (deleteSavedUrl id) st') = savedUrls st'
  /\ log st' = log st
  /\ status st' = status st.
Proof.
  intros st'. unfold st'. cbn.
  split; [|split; [|split; [|split; reflexivity]]].
  - intros x. rewrite filter_In, negb_true_iff, String.eqb_neq. tauto.
  - apply filter_other_ids.
  - apply filter_other_ids. intros Hin.
    apply in_map_iff in Hin as (x & Hx & Hin).
    apply filter_In in Hin as [_ Hne]. rewrite Hx, String.eqb_refl in Hne.
    discriminate Hne.
Qed.

(** X20: saving and then deleting the new entry gives the collection back:
    when [saveCurrentUrl] appends an entry, under an identifier that no saved
    entry has, [deleteSavedUrl] of that identifier restores the collection
    as it was. *)
Theorem save_then_delete (st : Store) :
  Js.truthy (Js.trim (url st)) = true ->
  ~ alreadySaved st ->
  let id := fst (crypto_randomUUID (world st)) in
  ~ In id (map saved_id (savedUrls st)) ->
  savedUrls (exec (deleteSavedUrl id) (exec saveCurrentUrl st)) = savedUrls st.
Proof.
  intros Hurl Hnew id Hfresh.
  destruct (saveCurrentUrl_run st Hurl) as (Hsaved & _). cbv zeta in Hsaved.
  destruct (existsb _ (savedUrls st)) eqn:Hex.
  - exfalso. apply Hnew. fold id in Hex.
    exact (proj1 (existsb_sameSaved st id) Hex).
  - cbn. rewrite Hsaved, filter_app. cbn. fold id.
    rewrite String.eqb_refl. cbn.
    rewrite (filter_other_ids id (savedUrls st) Hfresh). apply app_nil_r.
Qed.


End SavedUsed.

(** ** Snippets and templates *)

Lemma userSnippets_defaults : userSnippets DEFAULT_SNIPPETS = [].
Proof. reflexivity. Qed.

Lemma examples_defaults : filter isExample DEFAULT_SNIPPETS = DEFAULT_SNIPPETS.
Proof. reflexivity. Qed.

Lemma examples_user (l : list Snippet) : filter isExample (userSnippets l) = [].
Proof.
  unfold userSnippets. induction l as [|s l IH]; [reflexivity|].
  cbn. destruct (isExample s) eqn:Hs; cbn; [exact IH|].
  now rewrite Hs.
Qed.

Lemma userSnippets_idempotent (l : list Snippet) :
  userSnippets (userSnippets l) = userSnippets l.
Proof.
  unfold userSnippets. induction l as [|s l IH]; [reflexivity|].
  cbn. destruct (isExample s) eqn:Hs; cbn; [exact IH|].
  rewrite Hs. cbn. now rewrite IH.
Qed.

(** X22: the snippets panel shows every default example exactly once, first
    and in the order of [DEFAULT_SNIPPETS], whether or not the [snippets] cell
    holds them, followed by the snippets that are no examples; what it shows
    beside the examples is exactly what the persisting effect writes, and the
    examples are never written. *)
Theorem allSnippets_examples (l : list Snippet) :
  filter isExample (allSnippets l) = DEFAULT_SNIPPETS
  /\ userSnippets (allSnippets l) = userSnippets l
  /\ allSnippets (allSnippets l) = allSnippets l
  /\ allSnippets (DEFAULT_SNIPPETS ++ userSnippets l) = allSnippets l
  /\ filter isExample (userSnippets l) = [].
Proof.
  assert (Huser : userSnippets (allSnippets l) = userSnippets l).
  { unfold allSnippets, userSnippets at 1. rewrite filter_app.
    fold (userSnippets DEFAULT_SNIPPETS). rewrite userSnippets_defaults.
    apply userSnippets_idempotent. }
  split; [|split; [|split; [|split]]].
  - unfold allSnippets. rewrite filter_app, examples_defaults, examples_user.
    apply app_nil_r.
  - exact Huser.
  - unfold allSnippets at 1. now rewrite Huser.
  - unfold allSnippets at 1. unfold userSnippets at 1. rewrite filter_app.
    fold (userSnippets DEFAULT_SNIPPETS). fold (userSnippets (userSnippets l)).
    now rewrite userSnippets_defaults, userSnippets_idempotent.
  - apply examples_user.
Qed.

Section Snippets.

Context {H : Host}.

Lemma kept_examples (id : string) (l : list Snippet) :
  filter isExample
    (filter (fun s => negb (String.eqb (snippet_id s) id) || isExample s) l)
  = filter isExample l.
Proof.
  induction l as [|s l IH]; [reflexivity|].
  cbn [filter]. destruct (isExample s) eqn:Hs.
  - rewrite orb_true_r. cbn [filter]. rewrite Hs. now rewrite IH.
  - rewrite orb_false_r.
    destruct (negb (String.eqb (snippet_id s) id)); [|exact IH].
    cbn [filter]. rewrite Hs. exact IH.
Qed.

Lemma kept_for_example (id : string) (l : list Snippet) :
  Js.startsWith id "ex-" = true ->
  filter (fun s => negb (String.eqb (snippet_id s) id) || isExample s) l = l.
Proof.
  intros Hex. induction l as [|s l IH]; [reflexivity|].
  cbn [filter]. destruct (String.eqb_spec (snippet_id s) id) as [Heq | Hne].
  - unfold isExample at 1. rewrite Heq, Hex. cbn [negb orb]. now rewrite IH.
  - cbn [negb orb]. now rewrite IH.
Qed.

(** X23: [deleteSnippet] never removes a default example: the examples in
    the [snippets] cell stay as they are, and with the identifier of an
    example nothing changes at all. It removes exactly the other snippets of
    the given identifier, which is what the Delete button of a snippet card
    does for the card's own snippet. *)
Theorem deleteSnippet_keeps_examples (id : string) (p : Panel) :
  filter isExample (snippets (deleteSnippet id p))
  = filter isExample (snippets p)
  /\ (Js.startsWith id "ex-" = true ->
      snippets (deleteSnippet id p) = snippets p)
  /\ (forall s,
        In s (snippets (deleteSnippet id p))
        <-> In s (snippets p) /\ (snippet_id s <> id \/ isExample s = true))
  /\ (forall snip,
        isExample snip = false ->
        snippets (removeSnippet snip p)
        = snippets (deleteSnippet (snippet_id snip) p)).
Proof.
  cbn [deleteSnippet removeSnippet snippets with_snippets].
  split; [|split; [|split]].
  - apply kept_examples.
  - apply kept_for_example.
  - intros s. rewrite filter_In, orb_true_iff, negb_true_iff, String.eqb_neq.
    tauto.
  - intros snip Hsnip. apply filter_ext_in. intros s _.
    destruct (String.eqb_spec (snippet_id s) (snippet_id snip)) as [Heq | Hne];
      [|reflexivity].
    unfold isExample in *. rewrite Heq, Hsnip. reflexivity.
Qed.

(** [saveCurrentAsSnippet] with a message that is not blank. *)
Lemma saveCurrentAsSnippet_run (p : Panel) :
  Js.truthy (Js.trim (message (app p))) = true ->
  let p' := saveCurrentAsSnippet p in
  let new :=
    mkSnippet (fst (crypto_randomUUID (world (app p))))
      (Js.or_else (Js.trim (snippetName p))
         (if isJson (app p) then "Saved JSON" else "Saved text"))
      (Js.trim (message (app p)))
      (if isJson (app p) then "json" else "text") in
  snippets p' = (snippets p ++ [new])%list
  /\ snippetName p' = EmptyString
  /\ message (app p') = message (app p)
  /\ isJson (app p') = isJson (app p)
  /\ templates p' = templates p.
Proof.
  intros Hfilled. unfold saveCurrentAsSnippet. rewrite Hfilled. cbn [negb].
  destruct (crypto_randomUUID (world (app p))) as [id w]. repeat split.
Qed.

(** X24: with a message that is not blank, [saveCurrentAsSnippet] appends
    exactly one snippet: its content is the trimmed message, its type "json"
    or "text" by the JSON switch, its name the trimmed name field or, when
    that is blank, "Saved JSON" or "Saved text"; the name field is cleared
    and the message stays. Unless its identifier begins with "ex-", the panel
    shows it last and the persisting effect writes it last. *)
Theorem saveCurrentAsSnippet_appends (p : Panel) :
  Js.truthy (Js.trim (message (app p))) = true ->
  let p' := saveCurrentAsSnippet p in
  exists new,
    snippets p' = (snippets p ++ [new])%list
    /\ snippet_id new = fst (crypto_randomUUID (world (app p)))
    /\ snippet_content new = Js.trim (message (app p))
    /\ snippet_type new = (if isJson (app p) then "json" else "text")
    /\ snippet_name new
       = (if Js.truthy (Js.trim (snippetName p))
          then Js.trim (snippetName p)
          else if isJson (app p) then "Saved JSON" else "Saved text")
    /\ snippetName p' = EmptyString
    /\ message (app p') = message (app p)
    /\ (isExample new = false ->
        allSnippets (snippets p') = (allSnippets (snippets p) ++ [new])%list
        /\ userSnippets (snippets p') = (userSnippets (snippets p) ++ [new])%list).
Proof.
  intros Hfilled p'.
  destruct (saveCurrentAsSnippet_run p Hfilled)
    as (Hsnippets & Hname & Hmessage & _).
  cbv zeta in Hsnippets. fold p' in Hsnippets, Hname, Hmessage.
  eexists. split; [exact Hsnippets|]. cbn [snippet_id snippet_content
    snippet_type snippet_name].
  do 6 (split; [first [reflexivity | assumption]|]).
  intros Hvisible.
  match type of Hsnippets with
  | _ = (_ ++ [?new])%list =>
      assert (Huser : userSnippets (snippets p')
                      = (userSnippets (snippets p) ++ [new])%list)
  end.
  { rewrite Hsnippets. unfold userSnippets. rewrite filter_app.
    cbn [filter]. rewrite Hvisible. reflexivity. }
  split; [|exact Huser].
  unfold allSnippets. rewrite Huser. now rewrite app_assoc.
Qed.

(** X25: a saved snippet, inserted again, brings back the message that was
    saved, trimmed, and the JSON switch as it was when it was saved, whatever
    the message box holds at that time; saving it again from there saves the
    same content. *)
Theorem snippet_round_trip (p q : Panel) :
  Js.truthy (Js.trim (message (app p))) = true ->
  exists new,
    snippets (saveCurrentAsSnippet p) = (snippets p ++ [new])%list
    /\ message (app (applySnippet new q)) = Js.trim (message (app p))
    /\ isJson (app (applySnippet new q)) = isJson (app p)
    /\ Js.trim (message (app (applySnippet new q)))
       = Js.trim (message (app p))
    /\ snippets (applySnippet new q) = snippets q.
Proof.
  intros Hfilled.
  destruct (saveCurrentAsSnippet_run p Hfilled) as (Hsnippets & _).
  eexists. split; [exact Hsnippets|]. cbn.
  split; [reflexivity|]. split; [destruct (isJson (app p)); reflexivity|].
  split; [apply trim_idempotent | reflexivity].
Qed.

(** X26: with a blank message neither [saveCurrentAsSnippet] nor
    [saveCurrentAsTemplate] does anything: nothing is saved, the name fields
    are kept and no identifier is drawn from the browser. *)
Theorem save_blank_message (p : Panel) :
  Js.truthy (Js.trim (message (app p))) = false ->
  saveCurrentAsSnippet p = p /\ saveCurrentAsTemplate p = p.
Proof.
  intros Hblank. unfold saveCurrentAsSnippet, saveCurrentAsTemplate.
  now rewrite Hblank.
Qed.

Lemma filter_other_templates (id : string) (l : list Snippet) :
  ~ In id (map snippet_id l) ->
  filter (fun t => negb (String.eqb (snippet_id t) id)) l = l.
Proof.
  induction l as [|x l IH]; [reflexivity|].
  cbn. intros Hnot.
  destruct (String.eqb_spec (snippet_id x) id) as [Heq | Hne].
  - exfalso. apply Hnot. now left.
  - cbn. f_equal. apply IH. intros Hin. apply Hnot. now right.
Qed.

(** X27: with a message that is not blank, [saveCurrentAsTemplate] always
    appends one template (there is no duplicate check: saving the same message
    twice gives two templates), with the trimmed message, the type by the
    JSON switch and the trimmed name field or else "New JSON template" or "New
    text template"; and [deleteTemplate] of its identifier, when no template
    had it before, gives the templates back as they were. *)
Theorem saveCurrentAsTemplate_appends (p : Panel) :
  Js.truthy (Js.trim (message (app p))) = true ->
  let p' := saveCurrentAsTemplate p in
  let id := fst (crypto_randomUUID (world (app p))) in
  (exists new,
     templates p' = (templates p ++ [new])%list
     /\ snippet_id new = id
     /\ snippet_content new = Js.trim (message (app p))
     /\ snippet_type new = (if isJson (app p) then "json" else "text")
     /\ snippet_name new
        = (if Js.truthy (Js.trim (templateName p))
           then Js.trim (templateName p)
           else if isJson (app p) then "New JSON template"
                else "New text template"))
  /\ length (templates p') = S (length (templates p))
  /\ templateName p' = EmptyString
  /\ snippets p' = snippets p
  /\ (~ In id (map snippet_id (templates p)) ->
      templates (deleteTemplate id p') = templates p).
Proof.
  intros Hfilled p' id.
  assert (Hrun : templates p'
                 = (templates p
                    ++ [mkSnippet id
                          (Js.or_else (Js.trim (templateName p))
                             (if isJson (app p) then "New JSON template"
                              else "New text template"))
                          (Js.trim (message (app p)))
                          (if isJson (app p) then "json" else "text")])%list
                 /\ templateName p' = EmptyString
                 /\ snippets p' = snippets p).
  { unfold p', id, saveCurrentAsTemplate. rewrite Hfilled. cbn [negb].
    destruct (crypto_randomUUID (world (app p))) as [i w]. repeat split. }
  destruct Hrun as (Htemplates & Hname & Hsnippets).
  split; [|split; [|split; [|split]]]; try assumption.
  - eexists. split; [exact Htemplates|]. repeat split.
  - rewrite Htemplates, length_app. cbn. lia.
  - intros Hfresh. cbn [deleteTemplate templates with_templates].
    rewrite Htemplates, filter_app. cbn [filter snippet_id].
    rewrite String.eqb_refl. cbn.
    rewrite (filter_other_templates id (templates p) Hfresh). apply app_nil_r.
Qed.

End Snippets.

(** ** The further properties at concrete states of the reference browser *)

Lemma dialled_wired :
  In (0, normalizeUrl true "echo.websocket.events")
     (handlers
        (with_world
           (Browser.opened 0 (world (dialled "echo.websocket.events")))
           (dialled "echo.websocket.events"))).
Proof. vm_compute. left. reflexivity. Qed.

Lemma established_reachable :
  Reachable (J := ecma) (established "echo.websocket.events").
Proof.
  eapply Reachable_step;
    [|exact (Step_notify (J := ecma) _ _ _ Open dialled_wired)].
  eapply Reachable_step; [|apply Step_browser].
  eapply Reachable_step;
    [|exact (Step_connect (J := ecma) (typedUrl "echo.websocket.events"))].
  eapply Reachable_step;
    [|exact (Step_url (J := ecma) mounted "echo.websocket.events")].
  now apply Reachable_mounted.
Qed.

Lemma composing_reachable (msg : string) (json : bool) (st : @Store browser) :
  Reachable (J := ecma) st -> Reachable (J := ecma) (composing msg json st).
Proof.
  intros Hst.
  eapply Reachable_step;
    [|exact (Step_json (J := ecma) (with_message msg st) json)].
  eapply Reachable_step; [exact Hst|].
  exact (Step_message (J := ecma) st msg).
Qed.

Lemma connect_opens_witness :
  let st := typedUrl "echo.websocket.events" in
  status (exec connect st) = Connecting
  /\ wsRef (exec connect st) = Some 0
  /\ handlers (exec connect st) = [(0, "wss://echo.websocket.events")].
Proof.
  cbv zeta.
  assert (Hurl : url (typedUrl "echo.websocket.events") <> EmptyString)
    by discriminate.
  destruct (connect_opens (typedUrl "echo.websocket.events") (ws := 0)
              (w := snd (Browser.new "wss://echo.websocket.events"
                           (stamped (world (typedUrl "echo.websocket.events")))))
              Hurl eq_refl)
    as (Hstatus & _ & Href & Hhandlers & _).
  split; [exact Hstatus|]. split; [exact Href | exact Hhandlers].
Defined.

Lemma connect_fails_witness :
  let st := typedUrl "   " in
  status (exec connect st) = Disconnected
  /\ wsRef (exec connect st) = None
  /\ error (exec connect st)
     = "Failed to connect: Failed to construct 'WebSocket': The URL 'wss://' is invalid.".
Proof.
  cbv zeta.
  assert (Hurl : url (typedUrl "   ") <> EmptyString) by discriminate.
  destruct (connect_fails (typedUrl "   ")
              (e := "Failed to construct 'WebSocket': The URL 'wss://' is invalid.")
              (w := stamped (world (typedUrl "   ")))
              Hurl eq_refl)
    as (Hstatus & Herror & Href & _).
  split; [exact Hstatus|]. split; [exact Href | exact Herror].
Defined.

Lemma send_text_verbatim_witness :
  let st := composing "  hello  " false (established "echo.websocket.events") in
  let st' := exec (sendMessage (J := ecma)) st in
  newCalls st st' = [Call_setError EmptyString; Call_send 0 "  hello  "]
  /\ appended (log st) (log st') [(SENT, "  hello  ")].
Proof.
  cbv zeta.
  destruct (send_text_verbatim (J := ecma)
              (composing "  hello  " false (established "echo.websocket.events"))
              (ws := 0)
              (w := snd (Browser.send 0 "  hello  "
                           (world (established "echo.websocket.events"))))
              eq_refl eq_refl eq_refl eq_refl eq_refl)
    as (Hcalls & Hlog & _).
  split; [exact Hcalls | exact Hlog].
Defined.

Lemma send_failure_reported_witness :
  let st := composing "hello" false (superseded "echo.websocket.events") in
  let st' := exec (sendMessage (J := ecma)) st in
  status st' = Connected
  /\ error st'
     = "Send failed: Failed to execute 'send' on 'WebSocket': Still in CONNECTING state.".
Proof.
  cbv zeta.
  destruct (send_failure_reported (J := ecma)
              (composing "hello" false (superseded "echo.websocket.events"))
              (ws := 1) (payload := "hello")
              (e := "Failed to execute 'send' on 'WebSocket': Still in CONNECTING state.")
              (w := world (superseded "echo.websocket.events"))
              eq_refl eq_refl eq_refl eq_refl eq_refl)
    as (Herror & _ & _ & _ & Hstatus).
  split; [exact Hstatus | exact Herror].
Defined.

Lemma send_blank_ignored_witness :
  let st := composing "   " true (established "echo.websocket.events") in
  let st' := exec (sendMessage (J := ecma)) st in
  log st' = log st /\ error st' = EmptyString.
Proof.
  cbv zeta.
  destruct (send_blank_ignored (J := ecma)
              (composing "   " true (established "echo.websocket.events"))
              (ws := 0) eq_refl eq_refl eq_refl)
    as (Hlog & Herror & _).
  split; [exact Hlog | exact Herror].
Defined.

Lemma reachable_connected_witness :
  status (established "echo.websocket.events") = Connected
  /\ exists ws, wsRef (established "echo.websocket.events") = Some ws.
Proof.
  split; [reflexivity|].
  exact (proj1 (reachable_connected (J := ecma) established_reachable) eq_refl).
Defined.

Lemma send_enabled_sends_witness :
  let st := composing "hello" false (established "echo.websocket.events") in
  sendDisabled st = false
  /\ exists ws,
       wsRef st = Some ws
       /\ filter isTransport (newCalls st (exec (sendMessage (J := ecma)) st))
          = [Call_send ws "hello"].
Proof.
  cbv zeta. split; [reflexivity|].
  exact (send_enabled_sends (J := ecma)
           (composing_reachable "hello" false established_reachable) eq_refl).
Defined.

Lemma step_log_witness :
  (exists added,
     log (dialled "   ") = (log (typedUrl "   ") ++ added)%list
     /\ length added <= 2)
  \/ (dialled "   " = exec clearLog (typedUrl "   ")
      /\ map content (log (dialled "   ")) = [(SYSTEM, "Log cleared")]).
Proof.
  exact (step_log (Step_connect (J := ecma) (typedUrl "   "))).
Defined.

Lemma saveCurrentUrl_then_saved_witness :
  let st := with_urlLabel " Echo " (typedUrl " echo.websocket.events ") in
  exists x,
    In x (savedUrls (exec saveCurrentUrl st))
    /\ saved_url x = "echo.websocket.events"
    /\ saved_secure x = true
    /\ saved_label x = "Echo".
Proof.
  cbv zeta.
  exact (proj1 (saveCurrentUrl_then_saved
                  (with_urlLabel " Echo " (typedUrl " echo.websocket.events "))
                  eq_refl)).
Defined.

Lemma saveCurrentUrl_twice_witness :
  let st' := exec saveCurrentUrl (typedUrl "echo.websocket.events") in
  length (savedUrls st') = 1
  /\ savedUrls (exec saveCurrentUrl st') = savedUrls st'.
Proof.
  cbv zeta. split; [reflexivity|].
  exact (saveCurrentUrl_twice (typedUrl "echo.websocket.events")
           eq_refl eq_refl).
Defined.

Lemma save_then_delete_witness :
  savedUrls
    (exec (deleteSavedUrl "uuid-0")
       (exec saveCurrentUrl (typedUrl "echo.websocket.events")))
  = [].
Proof.
  assert (Hnew : ~ alreadySaved (typedUrl "echo.websocket.events"))
    by (intros (x & [] & _)).
  assert (Hfresh :
            ~ In (fst (crypto_randomUUID
                         (world (typedUrl "echo.websocket.events"))))
                 (map saved_id (savedUrls (typedUrl "echo.websocket.events"))))
    by (intros []).
  exact (save_then_delete (st := typedUrl "echo.websocket.events")
           eq_refl Hnew Hfresh).
Defined.

Lemma saveCurrentAsSnippet_appends_witness :
  let p := drafting "  hello  " false shelf in
  exists new,
    snippets (saveCurrentAsSnippet p) = (DEFAULT_SNIPPETS ++ [new])%list
    /\ snippet_id new = "uuid-0"
    /\ snippet_content new = "hello".
Proof.
  cbv zeta.
  destruct (saveCurrentAsSnippet_appends (drafting "  hello  " false shelf)
              eq_refl)
    as (new & Hsnippets & Hid & Hcontent & _).
  exists new. split; [exact Hsnippets|]. split; [exact Hid | exact Hcontent].
Defined.

Lemma snippet_round_trip_witness :
  exists new,
    snippets (saveCurrentAsSnippet (drafting "  hello  " true shelf))
    = (DEFAULT_SNIPPETS ++ [new])%list
    /\ message (app (applySnippet new shelf)) = "hello"
    /\ isJson (app (applySnippet new shelf)) = true.
Proof.
  destruct (snippet_round_trip (drafting "  hello  " true shelf) shelf eq_refl)
    as (new & Hsnippets & Hmessage & Hjson & _).
  exists new. split; [exact Hsnippets|]. split; [exact Hmessage | exact Hjson].
Defined.

Lemma save_blank_message_witness :
  saveCurrentAsSnippet (drafting "   " false shelf) = drafting "   " false shelf
  /\ saveCurrentAsTemplate (drafting "   " false shelf)
     = drafting "   " false shelf.
Proof.
  exact (save_blank_message (drafting "   " false shelf) eq_refl).
Defined.

Lemma saveCurrentAsTemplate_appends_witness :
  let p := drafting "hello" false shelf in
  length (templates (saveCurrentAsTemplate p)) = 1
  /\ templates (deleteTemplate "uuid-0" (saveCurrentAsTemplate p)) = [].
Proof.
  cbv zeta.
  destruct (saveCurrentAsTemplate_appends (drafting "hello" false shelf) eq_refl)
    as (_ & Hlength & _ & _ & Hdelete).
  split; [exact Hlength|]. apply Hdelete. intros [].
Defined.

Lemma disconnect_shown_closes_witness :
  let st := established "echo.websocket.events" in
  disconnectShown st = true
  /\ exists ws,
       wsRef st = Some ws
       /\ filter isTransport (newCalls st (exec disconnect st))
          = [Call_close ws 1000 "User disconnect"].
Proof.
  cbv zeta. split; [reflexivity|].
  exact (proj1 (proj2 (disconnect_shown_closes (J := ecma)
                         established_reachable eq_refl))).
Defined.
